(** * VueSeq: the parallel capture-and-encode engine and the GPU detector

    A shallow embedding of
    - [renderToMp4Parallel] (the module the CLI imports as
      [src/renderer/encode-parallel.js]): frame scheduler, reassembly
      buffer, flow control, batch encoder bridge and resource teardown;
    - [src/renderer/gpu.js]: [testGPUBackend], [loadCachedConfig],
      [saveCachedConfig], [detectBestGPUConfig], [getOptimalChromiumConfig],
      [getAvailableBackends], [clearGPUCache], [checkGPUAcceleration];
    - the renderer test of the diagnostics script [test-gpu.js];
    - the GPU selection of the command line ([bin/cli.js]),
    followed by the properties the specification states about them and by
    further properties of the same code.

    Conventions of the embedding.
    - Frame indices, counters and buffer sizes are [nat]: the JS numbers
      involved are small non-negative integers, exactly representable.
    - Timestamps and durations are exact rationals [Q]; [i / fps] stands
      for the JS quotient of the same two numbers.
    - The number of frames, [Math.ceil(duration * fps)], is computed on
      binary64 doubles, as the code computes it.
    - The frame buffer ([new Map()]) is a [gmap nat string].
    - Every [await] parks the running task.  A scheduler event resumes one
      parked task and runs it up to its next [await]; quantifying over
      event lists covers every interleaving of the cooperative tasks.
      The scheduler is free to resume any parked task, also one whose
      promise has just been resolved, so the schedules of the embedding
      include all those of the JS event loop.
    - A capture that throws rejects the whole job.  The orchestration
      model has no such step: it describes the job as long as it is
      alive.  Failures are the subject of the [Render] module.
    - Code that may throw lives in the small effect monad of [Js].
    - [onProgress] and the console output are left out.

    Part I holds the definitions, Part II the lemmas and theorems. *)

From Stdlib Require Import QArith Qround Floats.
From stdpp Require Import gmap strings list fin_maps sorting pretty.

Local Open Scope nat_scope.

(* ===================================================================== *)
(** * Part I: the embedding                                                *)
(* ===================================================================== *)

(** ** Exceptions and side effects *)

Module Js.

Inductive result (A : Type) : Type :=
| Ok (a : A)
| Throw (msg : string).
Global Arguments Ok {A} a.
Global Arguments Throw {A} msg.

(** A computation over a store [S] that returns or throws.  The store is
    returned in both cases: what was done before a throw stays done. *)
Definition eff (S A : Type) : Type := S → result A * S.

Definition ret {S A} (a : A) : eff S A := λ s, (Ok a, s).

Definition throw {S A} (msg : string) : eff S A := λ s, (Throw msg, s).

Definition bind {S A B} (m : eff S A) (k : A → eff S B) : eff S B :=
  λ s, match m s with
       | (Ok a, s') => k a s'
       | (Throw msg, s') => (Throw msg, s')
       end.

Definition gets {S A} (f : S → A) : eff S A := λ s, (Ok (f s), s).

Definition modify {S} (f : S → S) : eff S unit := λ s, (Ok tt, f s).

(** [try { body } catch (e) { handler(e.message) }] *)
Definition try_catch {S A} (body : eff S A) (handler : string → eff S A)
  : eff S A :=
  λ s, match body s with
       | (Ok a, s') => (Ok a, s')
       | (Throw msg, s') => handler msg s'
       end.

(** [try { body } finally { fin }]: [fin] always runs; when it throws, its
    exception replaces the outcome of [body]. *)
Definition try_finally {S A} (body : eff S A) (fin : eff S unit) : eff S A :=
  λ s, match body s with
       | (r, s') =>
           match fin s' with
           | (Ok _, s'') => (r, s'')
           | (Throw msg, s'') => (Throw msg, s'')
           end
       end.

Declare Scope js_scope.
Delimit Scope js_scope with js.
Notation "x <- m ;; k" := (bind m (λ x, k))
  (at level 100, m at next level, right associativity) : js_scope.
Notation "m ;;; k" := (bind m (λ _, k))
  (at level 100, right associativity) : js_scope.

End Js.

(** ** Frame scheduler: [frameAssignments] *)

Module Scheduler.

(** JS [i % n] on non-negative integers; the result is [NaN] when [n] is 0. *)
Definition js_rem (i n : nat) : option nat :=
  if decide (n = 0) then None else Some (i mod n).

(** One iteration of the assignment loop,
    [frameAssignments[i % numWorkers].push(i)].  Indexing with [NaN] or
    past the end yields [undefined], on which [.push] throws: [None]. *)
Definition push_frame (numWorkers : nat) (fa : list (list nat)) (i : nat)
  : option (list (list nat)) :=
  w ← js_rem i numWorkers; l ← fa !! w; Some (<[w := l ++ [i]]> fa).

(** [for (let i = ...; i < totalFrames; i++)] with [count] iterations left. *)
Fixpoint assign_loop (numWorkers i count : nat) (fa : list (list nat))
  : option (list (list nat)) :=
  match count with
  | 0 => Some fa
  | S c => fa' ← push_frame numWorkers fa i; assign_loop numWorkers (S i) c fa'
  end.

(** [Array.from({ length: numWorkers }, () => [])] followed by the loop. *)
Definition frameAssignments (numWorkers totalFrames : nat)
  : option (list (list nat)) :=
  assign_loop numWorkers 0 totalFrames (replicate numWorkers []).

(** Specification side: the indices in [lo, lo + n) that fall to worker [w]. *)
Definition residue_class (W w lo n : nat) : list nat :=
  filter (λ j, j mod W = w) (seq lo n).
Global Arguments residue_class : simpl never.

End Scheduler.

(** ** Reassembly buffer, flow control and the batch encoder bridge *)

Module Pipeline.
Import Scheduler.

Definition MAX_BUFFERED_FRAMES : nat := 300.
Definition ENCODE_BATCH_SIZE : nat := 5.

(** What [renderToMp4Parallel] works on once set-up is done.
    [captureFrameJPEG p t] is the data URL that page [p] returns when asked
    to seek to [t] and capture. *)
Record job := Job {
  numWorkers : nat;
  totalFrames : nat;
  fps : Q;
  captureFrameJPEG : nat → Q → string;
}.

(** [Math.ceil] of a double, as an integer; [None] for [NaN] and the
    infinities. *)
Definition Math_ceil (x : float) : option Z :=
  match Prim2SF x with
  | S754_zero _ => Some 0%Z
  | S754_finite sign m e =>
      (* the double is [n * 2 ^ e] *)
      let n := if sign then Z.neg m else Z.pos m in
      Some (if (0 <=? e)%Z then n * 2 ^ e else - ((- n) / 2 ^ (- e)))%Z
  | S754_infinity _ | S754_nan => None
  end.

(** [Math.ceil(duration * fps)], the bound of the loops over the frame
    indices.  The product is that of the two doubles, rounded as IEEE 754
    rounds it.  A loop bounded by a non-positive count does not run,
    hence the clamp at 0; [None] when the product is [NaN] or infinite. *)
Definition frame_count (duration fps : float) : option nat :=
  Z.to_nat <$> Math_ceil (duration * fps).

(** [frameIndex / fps] *)
Definition timestamp_of (fps : Q) (i : nat) : Q :=
  (inject_Z (Z.of_nat i) / fps)%Q.

(** An element of a batch: [{ dataUrl, timestamp }]. *)
Record frame := Frame { dataUrl : string; timestamp : Q }.

(** One [VideoSource.add(timestamp, duration)] on the encode canvas, with
    the image drawn onto the canvas just before. *)
Record sample := Sample { image : string; start : Q; duration : Q }.

(** A [processEncodeQueue] parked on [encoderPage.evaluate]: its local
    [lookahead], [batch.length], and the frames [loadAndEncode] has still
    to add in the encoder page. *)
Record pending := Pending {
  lookahead : nat;
  batch_length : nat;
  todo : list frame;
}.

(** The two places where [runWorker] awaits [processEncodeQueue()]. *)
Inductive site := InWaitLoop | AfterInsert.

(** Where a worker is parked, in its [k]-th loop iteration. *)
Inductive wpc :=
| Capturing (k : nat)                            (* await captureFrameJPEG *)
| Sleeping (k : nat)                             (* await setTimeout 50 *)
| Draining (k : nat) (st : site) (p : option pending)
                                                 (* await processEncodeQueue() *)
| Finished.

(** Where the main task is parked. *)
Inductive mpc :=
| AwaitWorkers                                   (* await Promise.all *)
| MainDraining (p : option pending)              (* await processEncodeQueue() *)
| MainSleeping                                   (* await setTimeout 100 *)
| Encoded.                                       (* the drain loop is left *)

Record state := State {
  frameBuffer : gmap nat string;
  nextEncodeFrame : nat;
  encodedCount : nat;
  output : list sample;
  workers : list wpc;
  main : mpc;
}.

Definition set_buffer (b : gmap nat string) (s : state) : state :=
  State b (nextEncodeFrame s) (encodedCount s) (output s) (workers s) (main s).
Definition set_worker (w : nat) (pc : wpc) (s : state) : state :=
  State (frameBuffer s) (nextEncodeFrame s) (encodedCount s) (output s)
        (<[w := pc]> (workers s)) (main s).
Definition set_main (pc : mpc) (s : state) : state :=
  State (frameBuffer s) (nextEncodeFrame s) (encodedCount s) (output s)
        (workers s) pc.
Definition set_output (o : list sample) (s : state) : state :=
  State (frameBuffer s) (nextEncodeFrame s) (encodedCount s) o
        (workers s) (main s).
(** [frameBuffer.set(frameIndex, dataUrl)] *)
Definition frameBuffer_set (frameIndex : nat) (dataUrl : string) (s : state)
  : state :=
  set_buffer (<[frameIndex := dataUrl]> (frameBuffer s)) s.
(** [nextEncodeFrame = lookahead; encodedCount += batch.length] *)
Definition advance (la n : nat) (s : state) : state :=
  State (frameBuffer s) la (encodedCount s + n) (output s)
        (workers s) (main s).

(** The collecting loop of [processEncodeQueue]:
    [while (frameBuffer.has(lookahead) && batch.length < ENCODE_BATCH_SIZE)],
    with [room] the number of slots left in the batch.  Returns the batch,
    the buffer after the deletions and the final [lookahead]. *)
Fixpoint collect (fps : Q) (room : nat) (buf : gmap nat string) (la : nat)
  : list frame * gmap nat string * nat :=
  match room with
  | 0 => ([], buf, la)
  | S room' =>
      match buf !! la with
      | None => ([], buf, la)
      | Some d =>
          let '(batch, buf', la') := collect fps room' (delete la buf) (S la) in
          (Frame d (timestamp_of fps la) :: batch, buf', la')
      end
  end.

(** [processEncodeQueue] up to its [await]: with a non-empty batch the call
    parks on [encoderPage.evaluate]; with an empty one it returns. *)
Definition processEncodeQueue_call (j : job) (s : state)
  : state * option pending :=
  let '(batch, buf', la) :=
    collect (fps j) ENCODE_BATCH_SIZE (frameBuffer s) (nextEncodeFrame s) in
  (set_buffer buf' s,
   if decide (0 < length batch)
   then Some (Pending la (length batch) batch) else None).

(** [processEncodeQueue] after its [await]; [None] while [loadAndEncode] has
    not added every frame of the batch. *)
Definition processEncodeQueue_return (p : option pending) (s : state)
  : option state :=
  match p with
  | None => Some s
  | Some (Pending la n []) => Some (advance la n s)
  | Some (Pending _ _ (_ :: _)) => None
  end.

(** One turn of the sequential loop of [loadAndEncode]:
    [ctx.drawImage(img, 0, 0); await source.add(timestamp, 1 / fps)]. *)
Definition loadAndEncode_add (j : job) (p : pending) (s : state)
  : option (pending * state) :=
  match todo p with
  | [] => None
  | f :: rest =>
      Some (Pending (lookahead p) (batch_length p) rest,
            set_output
              (output s ++ [Sample (dataUrl f) (timestamp f) (1 / fps j)%Q]) s)
  end.

(** The condition of the inner [while] of the flow control. *)
Definition wait_loop (k : nat) (s : state) : wpc :=
  if decide (MAX_BUFFERED_FRAMES - ENCODE_BATCH_SIZE < size (frameBuffer s))
  then Sleeping k else Capturing k.

(** Head of the [for] loop of [runWorker], up to the first [await]. *)
Definition iteration (frames : list nat) (k : nat) (s : state) : wpc :=
  match frames !! k with
  | None => Finished
  | Some _ =>
      if decide (MAX_BUFFERED_FRAMES < size (frameBuffer s))
      then wait_loop k s else Capturing k
  end.

(** Resume worker [w] and run it to its next [await]. *)
Definition runWorker (j : job) (fa : list (list nat)) (w : nat) (s : state)
  : option state :=
  frames ← fa !! w;
  pc ← workers s !! w;
  match pc with
  | Capturing k =>
      frameIndex ← frames !! k;
      let dataUrl :=
        captureFrameJPEG j (S w) (timestamp_of (fps j) frameIndex) in
      let s1 := frameBuffer_set frameIndex dataUrl s in
      let '(s2, p) := processEncodeQueue_call j s1 in
      Some (set_worker w (Draining k AfterInsert p) s2)
  | Sleeping k =>
      let '(s1, p) := processEncodeQueue_call j s in
      Some (set_worker w (Draining k InWaitLoop p) s1)
  | Draining k st p =>
      s1 ← processEncodeQueue_return p s;
      Some (set_worker w
              match st with
              | InWaitLoop => wait_loop k s1
              | AfterInsert => iteration frames (S k) s1
              end s1)
  | Finished => None
  end.

Definition is_finished (pc : wpc) : bool :=
  match pc with Finished => true | _ => false end.

Definition is_capturing (pc : wpc) : bool :=
  match pc with Capturing _ => true | _ => false end.

(** Head of [while (encodedCount < totalFrames)] in the main task. *)
Definition drain_loop (j : job) (s : state) : state :=
  if decide (encodedCount s < totalFrames j)
  then let '(s1, p) := processEncodeQueue_call j s in
       set_main (MainDraining p) s1
  else set_main Encoded s.

(** Resume the main task and run it to its next [await]. *)
Definition runMain (j : job) (s : state) : option state :=
  match main s with
  | AwaitWorkers =>
      if forallb is_finished (workers s) then Some (drain_loop j s) else None
  | MainDraining p =>
      s1 ← processEncodeQueue_return p s;
      Some (if decide (encodedCount s1 < totalFrames j)
            then set_main MainSleeping s1 else set_main Encoded s1)
  | MainSleeping => Some (drain_loop j s)
  | Encoded => None
  end.

Inductive task := Worker (w : nat) | Main.

Global Instance task_eq_dec : EqDecision task.
Proof. solve_decision. Defined.

(** What the scheduler can do next: resume a parked task, or let the
    encoder page add the next frame of the batch a task has sent it. *)
Inductive event := Resume (t : task) | EncoderAdd (t : task).

Definition encoder_step (j : job) (t : task) (s : state) : option state :=
  match t with
  | Worker w =>
      pc ← workers s !! w;
      match pc with
      | Draining k st (Some p) =>
          '(p', s1) ← loadAndEncode_add j p s;
          Some (set_worker w (Draining k st (Some p')) s1)
      | _ => None
      end
  | Main =>
      match main s with
      | MainDraining (Some p) =>
          '(p', s1) ← loadAndEncode_add j p s;
          Some (set_main (MainDraining (Some p')) s1)
      | _ => None
      end
  end.

Definition step (j : job) (fa : list (list nat)) (e : event) (s : state)
  : option state :=
  match e with
  | Resume (Worker w) => runWorker j fa w s
  | Resume Main => runMain j s
  | EncoderAdd t => encoder_step j t s
  end.

Fixpoint run (j : job) (fa : list (list nat)) (tr : list event) (s : state)
  : option state :=
  match tr with
  | [] => Some s
  | e :: tr' => s' ← step j fa e s; run j fa tr' s'
  end.

(** The state when [Promise.all(Array.from(..., runWorker))] parks the main
    task: every [runWorker(i)] has run, on the empty buffer, up to its
    first [await]. *)
Definition launch (fa : list (list nat)) : state :=
  let s0 := State ∅ 0 0 [] [] AwaitWorkers in
  State ∅ 0 0 [] ((λ frames, iteration frames 0 s0) <$> fa) AwaitWorkers.

(** The orchestration part of [renderToMp4Parallel] under schedule [tr];
    [None] when [frameAssignments] throws or [tr] names a step that cannot
    be taken. *)
Definition exec (j : job) (tr : list event) : option state :=
  fa ← frameAssignments (numWorkers j) (totalFrames j);
  run j fa tr (launch fa).

(** *** Specification side *)

(** The batch element and the encoder sample that belong to index [i]:
    captured by page [S (i mod numWorkers)] at [i / fps]. *)
Definition frame_of (j : job) (i : nat) : frame :=
  Frame (captureFrameJPEG j (S (i mod numWorkers j)) (timestamp_of (fps j) i))
        (timestamp_of (fps j) i).

Definition sample_of (j : job) (i : nat) : sample :=
  Sample (dataUrl (frame_of j i)) (timestamp_of (fps j) i) (1 / fps j)%Q.

(** The batch a task has in flight, if any. *)
Definition worker_pending (pc : wpc) : option pending :=
  match pc with Draining _ _ p => p | _ => None end.

Definition main_pending (pc : mpc) : option pending :=
  match pc with MainDraining p => p | _ => None end.

Definition pending_of (s : state) (t : task) : option pending :=
  match t with
  | Worker w => pc ← workers s !! w; worker_pending pc
  | Main => main_pending (main s)
  end.

(** The view of the in-flight batches after task [t] has changed its own. *)
Definition upd (pend : task → option pending) (t : task) (p : option pending)
  : task → option pending :=
  λ t', if decide (t' = t) then p else pend t'.

(** How many of its assigned frames a worker has put into the buffer. *)
Definition progress (frames : list nat) (pc : wpc) : nat :=
  match pc with
  | Capturing k | Sleeping k | Draining k InWaitLoop _ => k
  | Draining k AfterInsert _ => S k
  | Finished => length frames
  end.

Definition inserted_by (frames : list nat) (pc : wpc) (i : nat) : Prop :=
  ∃ k, frames !! k = Some i ∧ k < progress frames pc.

Definition inserted (fa : list (list nat)) (ws : list wpc) (i : nat) : Prop :=
  ∃ w frames pc,
    fa !! w = Some frames ∧ ws !! w = Some pc ∧ inserted_by frames pc i.

(** No batch is in flight: everything below [d] is encoded. *)
Definition idle (pend : task → option pending) (next enc : nat)
    (out : list sample) (d : nat) : Prop :=
  (∀ t, pend t = None) ∧ next = d ∧ enc = d ∧ length out = d.

(** Exactly one batch is in flight; it ends at [d], the encoder page is
    part-way through it, and [nextEncodeFrame] is still its first index. *)
Definition busy (j : job) (pend : task → option pending) (next enc : nat)
    (out : list sample) (d : nat) : Prop :=
  ∃ t p,
    pend t = Some p ∧ (∀ t', t' ≠ t → pend t' = None) ∧
    lookahead p = d ∧ next + batch_length p = d ∧
    0 < batch_length p ∧ enc = next ∧
    next ≤ length out ≤ d ∧
    todo p = frame_of j <$> seq (length out) (d - length out).

(** The ordering invariant on the buffer, the two counters, the encoder
    output and the batches in flight; [d] is the first index that has not
    been taken out of the buffer. *)
Record core (j : job) (buf : gmap nat string) (next enc : nat)
    (out : list sample) (pend : task → option pending) (d : nat)
  : Prop := Core {
  core_output : out = sample_of j <$> seq 0 (length out);
  core_drain : idle pend next enc out d ∨ busy j pend next enc out d;
  core_buffer : ∀ i x, buf !! i = Some x → d ≤ i ∧ x = dataUrl (frame_of j i);
}.

Record invariant (j : job) (fa : list (list nat)) (s : state) (d : nat)
  : Prop := Invariant {
  inv_core : core j (frameBuffer s) (nextEncodeFrame s) (encodedCount s)
               (output s) (pending_of s) d;
  inv_inserted : ∀ i, inserted fa (workers s) i ↔
                      i < d ∨ is_Some (frameBuffer s !! i);
  inv_main : main s ≠ AwaitWorkers →
             ∀ w pc, workers s !! w = Some pc → pc = Finished;
  inv_encoded : main s = Encoded → totalFrames j ≤ encodedCount s;
}.

(** Number of workers parked on a capture. *)
Definition capturing (ws : list wpc) : nat :=
  length (filter (λ pc, is_capturing pc = true) ws).

(** The bound that flow control maintains, for [W] workers. *)
Definition flow_inv (s : state) (W : nat) : Prop :=
  size (frameBuffer s) + capturing (workers s) ≤ MAX_BUFFERED_FRAMES + W ∧
  length (workers s) = W.

(** *** Schedules *)

(** Worker [w] delivers its capture, the encoder page adds what was sent,
    and the worker resumes. *)
Definition serve (w : nat) : list event :=
  [Resume (Worker w); EncoderAdd (Worker w); Resume (Worker w)].

(** The captures complete in frame order, each one encoded before the
    next completes; the main task resumes at the end. *)
Definition in_frame_order (W N : nat) : list event :=
  concat ((λ i, serve (i mod W)) <$> seq 0 N) ++ [Resume Main].

(** How many entries of an ascending list lie below [i]. *)
Definition position (i : nat) (frames : list nat) : nat :=
  length (filter (λ x, x < i) frames).

(** Where a worker is parked when exactly the frames below [i] are done. *)
Definition pc_at (i : nat) (frames : list nat) : wpc :=
  match frames !! position i frames with
  | Some _ => Capturing (position i frames)
  | None => Finished
  end.

(** The state of [in_frame_order] in front of frame [i]. *)
Definition at_frame (j : job) (fa : list (list nat)) (i : nat) : state :=
  State ∅ i i (sample_of j <$> seq 0 i) (pc_at i <$> fa) AwaitWorkers.

(** Worker [w] delivers a capture that completes a run of [n] frames. *)
Definition serve_batch (w n : nat) : list event :=
  [Resume (Worker w)] ++ replicate n (EncoderAdd (Worker w))
  ++ [Resume (Worker w)].

(** Worker 1 runs ahead alone, [rounds] frames, while the others are still
    waiting for their captures. *)
Definition lagging_worker (rounds : nat) : list event :=
  concat (replicate rounds [Resume (Worker 1); Resume (Worker 1)]).

(** Three workers, seven frames: the captures of frames 2 and 1 complete
    before frame 0, those of 5 and 4 before 3. *)
Definition out_of_order : list event :=
  [Resume (Worker 2); Resume (Worker 2); Resume (Worker 1); Resume (Worker 1)]
  ++ serve_batch 0 3
  ++ [Resume (Worker 2); Resume (Worker 2); Resume (Worker 1); Resume (Worker 1)]
  ++ serve_batch 0 3 ++ serve_batch 0 1 ++ [Resume Main].

(** A page whose capture is the decimal numerator of the timestamp: the
    same on every page. *)
Definition numbered (p : nat) (t : Q) : string := pretty (Qnum t).

End Pipeline.

(** ** Liveness of the orchestration *)

Module Liveness.
Import Scheduler Pipeline.

(** A parked worker points at one of its own frames. *)
Definition parked_in_range (frames : list nat) (pc : wpc) : Prop :=
  match pc with
  | Capturing k | Sleeping k | Draining k _ _ => k < length frames
  | Finished => True
  end.

Definition well_parked (fa : list (list nat)) (s : state) : Prop :=
  Forall2 parked_in_range fa (workers s).

(** A worker inside the inner [while] of the flow control with no batch
    of its own in flight. *)
Definition polling (pc : wpc) : bool :=
  match pc with
  | Sleeping _ | Draining _ InWaitLoop None => true
  | _ => false
  end.

(** Every worker is polling, the buffer is above the low-water mark and
    the frame the encoder needs next is not in it. *)
Definition starved (s : state) : Prop :=
  main s = AwaitWorkers ∧
  (∃ w pc, workers s !! w = Some pc ∧ polling pc = true) ∧
  Forall (λ pc, polling pc = true ∨ pc = Finished) (workers s) ∧
  MAX_BUFFERED_FRAMES - ENCODE_BATCH_SIZE < size (frameBuffer s) ∧
  frameBuffer s !! nextEncodeFrame s = None.

(** An upper bound on the number of times a worker is still resumed, as
    long as flow control does not make it wait. *)
Definition worker_steps (frames : list nat) (pc : wpc) : nat :=
  match pc with
  | Capturing k | Sleeping k => 2 * (length frames - k)
  | Draining k _ _ => 2 * (length frames - k) - 1
  | Finished => 0
  end.

(** The same for the main task, which encodes at least one frame per turn
    of its loop. *)
Definition main_steps (N : nat) (s : state) : nat :=
  match main s with
  | AwaitWorkers | MainSleeping => 3 * (N - encodedCount s) + 2
  | MainDraining _ => 3 * (N - encodedCount s) + 1
  | Encoded => 0
  end.

(** An upper bound on the number of events still to come: resumptions of
    the workers and of the main task, and additions by the encoder page. *)
Definition steps_left (N : nat) (fa : list (list nat)) (s : state) : nat :=
  sum_list (zip_with worker_steps fa (workers s)) + main_steps N s
  + (N - length (output s)).

Definition in_wait_loop (pc : wpc) : bool :=
  match pc with
  | Sleeping _ | Draining _ InWaitLoop _ => true
  | _ => false
  end.

(** No worker is in the wait loop of the flow control, and the main task
    has not drained in vain. *)
Definition calm (s : state) : Prop :=
  Forall (λ pc, in_wait_loop pc = false) (workers s) ∧
  main s ≠ MainDraining None.

(** Workers 1 to 5 deliver [rounds] captures each, taking turns. *)
Definition others_run_ahead (rounds : nat) : list event :=
  concat (replicate rounds
    (concat ((λ w, [Resume (Worker w); Resume (Worker w)]) <$> [1; 2; 3; 4; 5]))).

(** Six workers: the first capture of worker 0 completes after 61
    captures of each other worker.  Worker 0 then delivers frame 0, has
    frames 0 to 4 encoded, enters the wait loop and drains frame 5. *)
Definition slow_first_capture : list event :=
  others_run_ahead 61 ++ serve_batch 0 5 ++ serve_batch 0 1.

End Liveness.

(** ** Capability detector: [gpu.js] *)

Module Gpu.
Import Js.
Local Open Scope string_scope.
Local Open Scope js_scope.

(** *** Strings *)

(** [String.prototype.toLowerCase], on the ASCII letters (the signatures
    tested for are ASCII). *)
Definition lower_ascii (c : Ascii.ascii) : Ascii.ascii :=
  let n := Ascii.nat_of_ascii c in
  if Nat.leb 65 n && Nat.leb n 90 then Ascii.ascii_of_nat (n + 32) else c.

Fixpoint toLowerCase (s : string) : string :=
  match s with
  | EmptyString => EmptyString
  | String c s' => String (lower_ascii c) (toLowerCase s')
  end.

(** [s.includes(needle)] *)
Fixpoint includes (s needle : string) : bool :=
  String.prefix needle s ||
  match s with
  | EmptyString => false
  | String _ s' => includes s' needle
  end.

(** *** Backend profiles *)

Record backend := Backend {
  name : string;
  label : string;
  channel : option string;
  headless : bool;
  args : list string;
}.

Definition linux_backends : list backend := [
  Backend "vulkan" "Vulkan (NVIDIA/AMD)" (Some "chromium") true
    ["--no-sandbox"; "--disable-background-timer-throttling";
     "--disable-backgrounding-occluded-windows";
     "--disable-renderer-backgrounding"; "--disable-ipc-flooding-protection";
     "--use-angle=vulkan"; "--enable-features=Vulkan";
     "--disable-vulkan-surface"; "--enable-unsafe-webgpu";
     "--ignore-gpu-blocklist"];
  Backend "egl" "EGL (Intel/Mesa)" (Some "chromium") true
    ["--no-sandbox"; "--disable-background-timer-throttling";
     "--disable-backgrounding-occluded-windows";
     "--disable-renderer-backgrounding"; "--use-gl=egl";
     "--ignore-gpu-blocklist"];
  Backend "desktop" "Desktop OpenGL" (Some "chromium") true
    ["--no-sandbox"; "--disable-background-timer-throttling";
     "--disable-backgrounding-occluded-windows";
     "--disable-renderer-backgrounding"; "--use-gl=desktop";
     "--ignore-gpu-blocklist"];
  Backend "angle-gl" "ANGLE OpenGL ES" (Some "chromium") true
    ["--no-sandbox"; "--disable-background-timer-throttling";
     "--disable-backgrounding-occluded-windows";
     "--disable-renderer-backgrounding"; "--use-angle=gl";
     "--ignore-gpu-blocklist"]
].

Definition darwin_backends : list backend := [
  Backend "metal" "Metal (Recommended)" (Some "chromium") true
    ["--use-angle=metal"];
  Backend "desktop" "Desktop OpenGL" (Some "chromium") true
    ["--use-gl=desktop"];
  Backend "auto" "Auto" (Some "chromium") true []
].

Definition win32_backends : list backend := [
  Backend "d3d11" "Direct3D 11 (Recommended)" (Some "chromium") true
    ["--no-sandbox"; "--use-angle=d3d11"];
  Backend "d3d9" "Direct3D 9" (Some "chromium") true
    ["--no-sandbox"; "--use-angle=d3d9"];
  Backend "desktop" "Desktop OpenGL" (Some "chromium") true
    ["--no-sandbox"; "--use-gl=desktop"];
  Backend "auto" "Auto" (Some "chromium") true ["--no-sandbox"]
].

(** [GPU_BACKENDS[plat] || GPU_BACKENDS.linux], for the values that
    [os.platform()] returns. *)
Definition GPU_BACKENDS (plat : string) : list backend :=
  if String.eqb plat "darwin" then darwin_backends
  else if String.eqb plat "win32" then win32_backends
  else linux_backends.

Definition SOFTWARE_FALLBACK : backend :=
  Backend "software" "Software (SwiftShader)" None true ["--no-sandbox"].

(** [24 * 60 * 60 * 1000] milliseconds *)
Definition CACHE_TTL : Z := (24 * 60 * 60 * 1000)%Z.

(** The selected profile, as returned and as cached. *)
Record config := Config {
  c_backend : string;
  c_label : string;
  c_channel : option string;
  c_headless : bool;
  c_args : list string;
  c_isHardwareAccelerated : bool;
  c_renderer : option string;
  c_vendor : option string;
}.

(** *** The probe *)

(** What the probe page finds. *)
Inductive webgl :=
| NoContext                                      (* getContext gives null *)
| NoDebugInfo                                    (* getExtension gives null *)
| DebugInfo (renderer vendor : option string).   (* the two getParameter *)

(** The object [testGPUBackend] returns; an absent field is [None]. *)
Record gpuInfo := GpuInfo {
  supported : bool;
  renderer : option string;
  vendor : option string;
  isHardwareAccelerated : option bool;
  error : option string;
}.

(** The signature test inside the probe page. *)
Definition isSoftware (rendererLower : string) : bool :=
  includes rendererLower "swiftshader" ||
  includes rendererLower "llvmpipe" ||
  includes rendererLower "software" ||
  includes rendererLower "microsoft basic render".

(** The function passed to [page.evaluate]. *)
Definition inspect (gl : webgl) : gpuInfo :=
  match gl with
  | NoContext => GpuInfo false None None None None
  | NoDebugInfo => GpuInfo true None None (Some false) None
  | DebugInfo renderer vendor =>
      let rendererLower := toLowerCase (default "" renderer) in
      GpuInfo true renderer vendor (Some (negb (isSoftware rendererLower))) None
  end.

(** The same test in the diagnostics script [test-gpu.js] ([testConfig]):
    [renderer] is [gpuInfo.webgl?.renderer?.toLowerCase() || '']. *)
Definition diagnostics_isSoftware (renderer : string) : bool :=
  includes renderer "swiftshader" ||
  includes renderer "llvmpipe" ||
  includes renderer "software" ||
  includes renderer "microsoft basic render" ||
  includes renderer "mesa" && includes renderer "llvm".

Definition diagnostics_hardwareAccelerated (renderer : option string) : bool :=
  negb (diagnostics_isSoftware (toLowerCase (default "" renderer))).

(** What happens when a browser is started with a backend's flags and the
    probe page is evaluated: each of the three awaited calls returns or
    throws. *)
Record probe := Probe {
  launch : result unit;         (* chromium.launch, newContext, newPage *)
  evaluate : result webgl;      (* page.evaluate *)
  close : result unit;          (* browser.close *)
}.

(** The cache file on disk. *)
Inductive file :=
| Missing
| Corrupt
| Json (timestamp : Z) (cfg : config).

(** The surroundings of one call of the detector. *)
Record env := Env {
  platform : string;
  now : Z;                      (* Date.now() in loadCachedConfig *)
  stamp : Z;                    (* Date.now() in saveCachedConfig *)
  writable : bool;              (* whether writeFile succeeds *)
  probe_of : backend → probe;
}.

(** What the detector reads and writes: the module variable
    [cachedConfig], the cache file, and the backends a browser was launched
    for so far.  The file holds the profile as written; the JSON round
    trip changes nothing that is read back (an [undefined] channel is
    dropped on writing and read as [undefined]). *)
Record world := World {
  cachedConfig : option config;
  cacheFile : file;
  probed : list string;
}.

Definition of_result {A} (r : result A) : eff world A :=
  match r with Ok a => ret a | Throw msg => throw msg end.

Definition readFile : eff world file :=
  f <- gets cacheFile ;;
  match f with Missing => throw "ENOENT" | _ => ret f end.

Definition JSON_parse (f : file) : eff world (Z * config) :=
  match f with
  | Json t c => ret (t, c)
  | _ => throw "SyntaxError"
  end.

Definition loadCachedConfig (e : env) : eff world (option config) :=
  try_catch
    (data <- readFile ;;
     cache <- JSON_parse data ;;
     if decide (now e - cache.1 < CACHE_TTL)%Z
     then ret (Some cache.2) else ret None)
    (λ _, ret None).

Definition writeFile (e : env) (f : file) : eff world unit :=
  if writable e
  then modify (λ w, World (cachedConfig w) f (probed w))
  else throw "EACCES".

Definition saveCachedConfig (e : env) (c : config) : eff world unit :=
  try_catch (writeFile e (Json (stamp e) c)) (λ _, ret tt).

Definition set_cachedConfig (c : config) : eff world unit :=
  modify (λ w, World (Some c) (cacheFile w) (probed w)).

Definition chromium_launch (e : env) (b : backend) : eff world unit :=
  modify (λ w, World (cachedConfig w) (cacheFile w) (probed w ++ [name b])) ;;;
  of_result (launch (probe_of e b)).

Definition testGPUBackend (e : env) (b : backend) : eff world gpuInfo :=
  try_catch
    (chromium_launch e b ;;;
     gl <- of_result (evaluate (probe_of e b)) ;;
     let info := inspect gl in
     of_result (close (probe_of e b)) ;;;
     ret info)
    (λ msg, ret (GpuInfo false None None None (Some msg))).

(** [if (result.isHardwareAccelerated)] *)
Definition accelerated (info : gpuInfo) : bool :=
  match isHardwareAccelerated info with Some true => true | _ => false end.

Definition hardware_config (b : backend) (info : gpuInfo) : config :=
  Config (name b) (label b) (channel b) (headless b) (args b) true
         (renderer info) (vendor info).

Definition software_config : config :=
  Config (name SOFTWARE_FALLBACK) (label SOFTWARE_FALLBACK)
         (channel SOFTWARE_FALLBACK) (headless SOFTWARE_FALLBACK)
         (args SOFTWARE_FALLBACK) false (Some "SwiftShader") (Some "Google").

(** Test one backend; on a hardware-accelerated result remember, persist
    and return its profile. *)
Definition try_backend (e : env) (b : backend) : eff world (option config) :=
  info <- testGPUBackend e b ;;
  if accelerated info then
    let c := hardware_config b info in
    set_cachedConfig c ;;; saveCachedConfig e c ;;; ret (Some c)
  else ret None.

(** [for (const backend of backends)] *)
Fixpoint try_backends (e : env) (bs : list backend)
  : eff world (option config) :=
  match bs with
  | [] => ret None
  | b :: rest =>
      r <- try_backend e b ;;
      match r with
      | Some c => ret (Some c)
      | None => try_backends e rest
      end
  end.

Record options := Options {
  forceDetect : bool;
  preferBackend : option string;
}.

(** [if (preferBackend) { const preferred = backends.find(...) ... }];
    the empty string is falsy. *)
Definition try_preferred (e : env) (o : options) (backends : list backend)
  : eff world (option config) :=
  match preferBackend o with
  | None => ret None
  | Some pref =>
      if String.eqb pref "" then ret None
      else match List.find (λ b, String.eqb (name b) pref) backends with
           | Some preferred => try_backend e preferred
           | None => ret None
           end
  end.

(** Everything after the two cache checks. *)
Definition detect (e : env) (o : options) : eff world config :=
  let backends := GPU_BACKENDS (platform e) in
  r <- try_preferred e o backends ;;
  match r with
  | Some c => ret c
  | None =>
      r <- try_backends e backends ;;
      match r with
      | Some c => ret c
      | None =>
          set_cachedConfig software_config ;;;
          saveCachedConfig e software_config ;;;
          ret software_config
      end
  end.

Definition detectBestGPUConfig (e : env) (o : options) : eff world config :=
  mem <- gets cachedConfig ;;
  match (if forceDetect o then None else mem) with
  | Some c => ret c
  | None =>
      cached <- (if forceDetect o then ret None else loadCachedConfig e) ;;
      match cached with
      | Some c => set_cachedConfig c ;;; ret c
      | None => detect e o
      end
  end.

(** [getOptimalChromiumConfig()] with its default argument ['auto']. *)
Definition getOptimalChromiumConfig (e : env)
  : eff world (bool * option string * list string) :=
  c <- detectBestGPUConfig e (Options false None) ;;
  ret (c_headless c, c_channel c, c_args c).

(** *** Specification side *)

(** What one probe amounts to once [testGPUBackend] has caught whatever it
    throws. *)
Definition failed (msg : string) : gpuInfo :=
  GpuInfo false None None None (Some msg).

Definition probe_info (p : probe) : gpuInfo :=
  match launch p with
  | Throw msg => failed msg
  | Ok _ =>
      match evaluate p with
      | Throw msg => failed msg
      | Ok gl =>
          match close p with
          | Throw msg => failed msg
          | Ok _ => inspect gl
          end
      end
  end.

Definition note_probe (b : backend) (w : world) : world :=
  World (cachedConfig w) (cacheFile w) (probed w ++ [name b]).

(** The world after a profile has been remembered and, if the file can be
    written, persisted. *)
Definition remember (e : env) (c : config) (w : world) : world :=
  World (Some c) (if writable e then Json (stamp e) c else cacheFile w)
        (probed w).

(** No candidate of the list is hardware-accelerated. *)
Definition all_fail (e : env) (bs : list backend) : Prop :=
  ∀ b, b ∈ bs → accelerated (probe_info (probe_of e b)) = false.

(** Neither cache can answer: the call is forced, or the memory is empty
    and the file is missing, unreadable or expired. *)
Definition cache_miss (e : env) (o : options) (w : world) : Prop :=
  forceDetect o = true ∨
  (cachedConfig w = None ∧
   match cacheFile w with
   | Json t _ => (CACHE_TTL ≤ now e - t)%Z
   | _ => True
   end).

(** *** Machines *)

(** A renderer string of a hardware GPU driven by Mesa's LLVM-based
    driver. *)
Definition radeon : string :=
  "AMD Radeon RX 580 Series (radeonsi, polaris10, LLVM 15.0.7, DRM 3.54), Mesa 23.2.1".

(** A probe that reports a given renderer. *)
Definition reports (renderer : string) : probe :=
  Probe (Ok tt) (Ok (DebugInfo (Some renderer) (Some "vendor"))) (Ok tt).

Definition fresh : world := World None Missing [].

(** A machine on which only the [egl] backend reaches the GPU. *)
Definition egl_machine (t : Z) : env :=
  Env "linux" t t true
      (λ b, if String.eqb (name b) "egl"
            then reports "Mesa Intel(R) UHD Graphics 620 (KBL GT2)"
            else Probe (Throw "browserType.launch: Timeout 8000ms exceeded")
                       (Ok NoContext) (Ok tt)).

(** A machine on which every probe fails, each in its own way. *)
Definition no_gpu (t : Z) : env :=
  Env "linux" t t true
      (λ b, if String.eqb (name b) "vulkan"
            then Probe (Throw "browserType.launch: Timeout 8000ms exceeded")
                       (Ok NoContext) (Ok tt)
            else if String.eqb (name b) "egl"
            then Probe (Ok tt) (Throw "page.evaluate: Target closed") (Ok tt)
            else if String.eqb (name b) "desktop"
            then Probe (Ok tt) (Ok NoContext) (Ok tt)
            else reports "Google SwiftShader").

End Gpu.

(** ** The rest of [gpu.js] and the diagnostics probe *)

Module GpuApi.
Import Js Gpu.
Local Open Scope string_scope.
Local Open Scope js_scope.

(** [{ headless, channel, args }] of a backend profile. *)
Definition launch_flags (b : backend) : bool * option string * list string :=
  (headless b, channel b, args b).

(** [getOptimalChromiumConfig(backend = 'auto')] *)
Definition getOptimalChromiumConfig (e : env) (backend : string)
  : eff world (bool * option string * list string) :=
  if String.eqb backend "auto" then
    config <- detectBestGPUConfig e (Options false None) ;;
    ret (c_headless config, c_channel config, c_args config)
  else
    match List.find (λ b, String.eqb (name b) backend)
            (GPU_BACKENDS (platform e)) with
    | Some selected => ret (launch_flags selected)
    | None => ret (launch_flags SOFTWARE_FALLBACK)
    end.

(** [getAvailableBackends()]: pairs [{ name, label }]. *)
Definition getAvailableBackends (plat : string) : list (string * string) :=
  [("auto", "Auto-detect")]
  ++ ((λ b, (name b, label b)) <$> GPU_BACKENDS plat)
  ++ [("software", "Software (SwiftShader)")].

(** [unlink(CACHE_FILE)]: rejects when the file is not there, and when the
    directory does not let this user remove it ([deletable] is false). *)
Definition unlink (deletable : bool) : eff world unit :=
  f <- gets cacheFile ;;
  match f with
  | Missing => throw "ENOENT"
  | _ =>
      if deletable
      then modify (λ w, World (cachedConfig w) Missing (probed w))
      else throw "EPERM"
  end.

Definition clearGPUCache (deletable : bool) : eff world unit :=
  modify (λ w, World None (cacheFile w) (probed w)) ;;;
  try_catch (unlink deletable) (λ _, ret tt).

(** The object [checkGPUAcceleration] returns. *)
Record acceleration := Acceleration {
  a_accelerated : bool;
  a_status : option string;
  a_backend : string;
  a_label : string;
}.

Definition checkGPUAcceleration (e : env) : eff world acceleration :=
  config <- detectBestGPUConfig e (Options false None) ;;
  ret (Acceleration (c_isHardwareAccelerated config) (c_renderer config)
         (c_backend config) (c_label config)).

(** *** The command line: GPU selection

    [const gpuBackend = values['gpu-backend'] || 'auto'], then
    [clearGPUCache()] when a backend is named, then [detectBestGPUConfig]
    with that name as [preferBackend]. *)
Definition cli_gpuBackend (value : string) : string :=
  if String.eqb value "" then "auto" else value.

Definition cli_detect (e : env) (deletable : bool) (value : string)
  : eff world config :=
  let gpuBackend := cli_gpuBackend value in
  (if negb (String.eqb gpuBackend "auto")
   then clearGPUCache deletable else ret tt) ;;;
  detectBestGPUConfig e
    (Options false
       (if negb (String.eqb gpuBackend "auto") then Some gpuBackend else None)).

(** *** The probe of the diagnostics script, [testGPUConfig]

    What its WebGL 1 test stores in [result.webgl.renderer]: nothing
    without a context, ['Unknown'] without the debug extension. *)
Definition diagnostics_renderer (gl : webgl) : option string :=
  match gl with
  | NoContext => None
  | NoDebugInfo => Some "Unknown"
  | DebugInfo renderer _ => renderer
  end.

(** [hardwareAccelerated] of a probe that did not throw. *)
Definition testGPUConfig_hardwareAccelerated (gl : webgl) : bool :=
  diagnostics_hardwareAccelerated (diagnostics_renderer gl).

(** *** Specification side *)

(** The world after the backends [bs] have been probed, none selected. *)
Definition probes (bs : list backend) (w : world) : world :=
  World (cachedConfig w) (cacheFile w) (probed w ++ (name <$> bs)).

(** The profile built from backend [b] on machine [e]. *)
Definition profile_of (e : env) (b : backend) : config :=
  hardware_config b (probe_info (probe_of e b)).

Definition is_accelerated (e : env) (b : backend) : Prop :=
  accelerated (probe_info (probe_of e b)) = true.

Global Instance is_accelerated_dec e b : Decision (is_accelerated e b).
Proof. unfold is_accelerated. apply _. Defined.

(** No preference: [preferBackend] is [undefined] or the empty string. *)
Definition no_preference (o : options) : Prop :=
  preferBackend o = None ∨ preferBackend o = Some "".

(** What a detection from scratch returns and leaves behind when no
    backend is preferred. *)
Definition first_accelerated (e : env) (bs : list backend) (w : world)
  : result config * world :=
  match list_find (is_accelerated e) bs with
  | Some (i, b) =>
      (Ok (profile_of e b),
       remember e (profile_of e b) (probes (take (S i) bs) w))
  | None =>
      (Ok software_config, remember e software_config (probes bs w))
  end.

(** The second candidate on Linux. *)
Definition linux_egl : backend := default SOFTWARE_FALLBACK (linux_backends !! 1).

(** A machine on which every probe launches and reports a hardware GPU,
    with a cache file of another user in the temporary directory. *)
Definition all_gpus (t : Z) : env :=
  Env "linux" t t false (λ _, reports "NVIDIA GeForce RTX 3080").

End GpuApi.

(** ** Resource lifecycle of [renderToMp4Parallel] *)

Module Render.
Import Js.
Local Open Scope string_scope.
Local Open Scope js_scope.

(** The awaited calls of [renderToMp4Parallel] that can reject. *)
Inductive call :=
| GetTimelineDuration
| CreateVideoServer
| ChromiumLaunch
| NewContext
| EncoderPageSetup              (* newPage, goto, injectLibraries *)
| WorkerPageSetup (i : nat)     (* newPage, goto, waitForFunction, inject *)
| InitEncoder                   (* encoderPage.evaluate: Output.start *)
| Orchestrate                   (* workers and drain loop: capture, encode *)
| Finalize                      (* close the source, finalize the output *)
| WriteFile
| BrowserClose
| CleanupServer.

Inductive resource := Server | Browser.

Inductive lifecycle := Acquired (r : resource) | Released (r : resource).

Record env := Env {
  rejects : call → option string;     (* the error a call rejects with *)
  timeline : option Q;                (* what getTimelineDuration finds *)
  gpu_env : Gpu.env;
}.

Record store := Store {
  gpu : Gpu.world;
  log : list lifecycle;
}.

Definition await (e : env) (c : call) : eff store unit :=
  match rejects e c with
  | Some msg => throw msg
  | None => ret tt
  end.

Definition record (l : lifecycle) : eff store unit :=
  modify (λ s, Store (gpu s) (log s ++ [l])).

Definition in_gpu {A} (m : eff Gpu.world A) : eff store A :=
  λ s, let '(r, w) := m (gpu s) in (r, Store w (log s)).

(** [!duration]: [undefined], [null] and 0 are falsy. *)
Definition falsy (d : option Q) : bool :=
  match d with
  | None => true
  | Some q => Qeq_bool q 0
  end.

Definition needs_detection (d : option Q) : bool :=
  match d with
  | None => true
  | Some q => Qeq_bool q 0 || Qle_bool q 0
  end.

Definition resolve_duration (e : env) (providedDuration : option Q)
  : eff store Q :=
  if needs_detection providedDuration then
    await e GetTimelineDuration ;;;
    if falsy (timeline e) then throw "Could not auto-detect duration."
    else ret (default 0%Q (timeline e))
  else ret (default 0%Q providedDuration).

(** [for (let i = 0; i < numWorkers; i++)] over the worker pages. *)
Fixpoint worker_pages (e : env) (i count : nat) : eff store unit :=
  match count with
  | 0 => ret tt
  | S c => await e (WorkerPageSetup i) ;;; worker_pages e (S i) c
  end.

(** The body of the [try] block. *)
Definition render_body (e : env) (numWorkers : nat) (output : string)
  : eff store string :=
  await e NewContext ;;;
  await e EncoderPageSetup ;;;
  worker_pages e 0 numWorkers ;;;
  await e InitEncoder ;;;
  await e Orchestrate ;;;
  await e Finalize ;;;
  await e WriteFile ;;;
  ret output.

(** The [finally] block. *)
Definition teardown (e : env) : eff store unit :=
  await e BrowserClose ;;; record (Released Browser) ;;;
  await e CleanupServer ;;; record (Released Server).

Definition renderToMp4Parallel (e : env) (providedDuration : option Q)
    (numWorkers : nat) (output : string) : eff store string :=
  resolve_duration e providedDuration ;;;
  await e CreateVideoServer ;;; record (Acquired Server) ;;;
  in_gpu (Gpu.getOptimalChromiumConfig (gpu_env e)) ;;;
  await e ChromiumLaunch ;;; record (Acquired Browser) ;;;
  try_finally (render_body e numWorkers output) (teardown e).

(** Every resource acquired so far has been released. *)
Definition torn_down (l : list lifecycle) : Prop :=
  ∀ r, Acquired r ∈ l → Released r ∈ l.

(** *** Runs *)

(** The browser cannot be started; everything else would work. *)
Definition launch_fails : env :=
  Env (λ c, match c with
            | ChromiumLaunch => Some "browserType.launch: Executable does not exist"
            | _ => None
            end)
      None (Gpu.no_gpu 1000).

(** A capture fails and then [browser.close()] rejects as well. *)
Definition close_fails : env :=
  Env (λ c, match c with
            | Orchestrate => Some "page.evaluate: Target crashed"
            | BrowserClose => Some "browser.close: Connection closed"
            | _ => None
            end)
      None (Gpu.no_gpu 1000).

(** The third worker page never becomes ready. *)
Definition page_times_out : env :=
  Env (λ c, match c with
            | WorkerPageSetup 2 => Some "page.waitForFunction: Timeout 30000ms exceeded"
            | _ => None
            end)
      None (Gpu.no_gpu 1000).

(** Nothing fails. *)
Definition all_well : env := Env (λ _, None) None (Gpu.no_gpu 1000).

Definition started : store := Store Gpu.fresh [].

End Render.

(* ===================================================================== *)
(** * Part II: properties                                                  *)
(* ===================================================================== *)

(** ** The partition of the frame indices *)

Module SchedulerProps.
Import Scheduler.

Lemma residue_class_cons W w lo n :
  residue_class W w lo (S n) =
  (if decide (lo mod W = w) then [lo] else []) ++ residue_class W w (S lo) n.
Proof.
  unfold residue_class. cbn [seq]. rewrite filter_cons.
  destruct (decide (lo mod W = w)); reflexivity.
Qed.

Lemma assign_loop_closed W :
  0 < W → ∀ count i fa, length fa = W →
  assign_loop W i count fa =
    Some (imap (λ w l, l ++ residue_class W w i count) fa).
Proof.
  intros HW. induction count as [|c IH]; intros i fa Hlen.
  - cbn. f_equal. apply list_eq. intros w.
    rewrite list_lookup_imap. destruct (fa !! w); cbn; [|done].
    by rewrite app_nil_r.
  - cbn [assign_loop]. unfold push_frame, js_rem.
    destruct (decide (W = 0)) as [?|_]; [lia|]. cbn.
    assert (Hlt : i mod W < length fa)
      by (rewrite Hlen; apply Nat.mod_upper_bound; lia).
    destruct (lookup_lt_is_Some_2 fa (i mod W) Hlt) as [l Hl].
    rewrite Hl. cbn. rewrite IH by (by rewrite length_insert).
    f_equal. apply list_eq. intros w. rewrite !list_lookup_imap.
    destruct (decide (i mod W = w)) as [<-|Hne].
    + rewrite list_lookup_insert_eq by done. rewrite Hl. cbn.
      rewrite residue_class_cons. rewrite decide_True by done.
      by rewrite <- app_assoc.
    + rewrite list_lookup_insert_ne by done.
      destruct (fa !! w); cbn; [|done].
      rewrite residue_class_cons. by rewrite decide_False.
Qed.

Lemma frameAssignments_closed W N :
  0 < W →
  frameAssignments W N = Some ((λ w, residue_class W w 0 N) <$> seq 0 W).
Proof.
  intros HW. unfold frameAssignments.
  rewrite assign_loop_closed by (done || by rewrite length_replicate).
  f_equal. apply list_eq. intros w.
  rewrite list_lookup_imap, list_lookup_fmap.
  destruct (decide (w < W)) as [Hw|Hw].
  - rewrite lookup_replicate_2 by done. rewrite lookup_seq_lt by done. done.
  - rewrite (proj1 (lookup_replicate_None W [] w)) by lia.
    rewrite lookup_seq_ge by lia. done.
Qed.

Lemma frameAssignments_lookup W N fa w :
  0 < W → frameAssignments W N = Some fa →
  fa !! w = if decide (w < W) then Some (residue_class W w 0 N) else None.
Proof.
  intros HW. rewrite frameAssignments_closed by done. intros [= <-].
  rewrite list_lookup_fmap. case_decide.
  - by rewrite lookup_seq_lt.
  - rewrite lookup_seq_ge by lia. done.
Qed.

Lemma elem_of_residue_class W w lo n i :
  i ∈ residue_class W w lo n ↔ i mod W = w ∧ lo ≤ i < lo + n.
Proof.
  unfold residue_class. rewrite list_elem_of_filter, elem_of_seq. tauto.
Qed.

Lemma residue_class_sorted W w lo n :
  StronglySorted lt (residue_class W w lo n).
Proof.
  revert lo. induction n as [|n IH]; intros lo.
  - constructor.
  - rewrite residue_class_cons. case_decide; cbn; [|apply IH].
    constructor; [apply IH|]. apply Forall_forall. intros j Hj.
    apply elem_of_residue_class in Hj. lia.
Qed.

Lemma concat_select_one {A} (x : A) (r lo n : nat) :
  concat ((λ w, if decide (r = w) then [x] else []) <$> seq lo n) =
  if decide (lo ≤ r < lo + n) then [x] else [].
Proof.
  revert lo. induction n as [|n IH]; intros lo; cbn.
  - rewrite decide_False by lia. done.
  - rewrite IH. repeat case_decide; cbn; try done; lia.
Qed.

Lemma concat_fmap_app_perm {A} (f g : nat → list A) (ws : list nat) :
  concat ((λ w, f w ++ g w) <$> ws) ≡ₚ concat (f <$> ws) ++ concat (g <$> ws).
Proof.
  induction ws as [|w ws IH]; cbn; [done|].
  rewrite IH. rewrite <- !app_assoc. apply Permutation_app_head.
  rewrite !app_assoc. apply Permutation_app_tail. apply Permutation_app_comm.
Qed.

Lemma concat_residue_classes W lo n :
  0 < W →
  concat ((λ w, residue_class W w lo n) <$> seq 0 W) ≡ₚ seq lo n.
Proof.
  intros HW. revert lo. induction n as [|n IH]; intros lo.
  - cbn. unfold residue_class. cbn.
    induction (seq 0 W) as [|? ? IHs]; cbn; done.
  - erewrite (list_fmap_ext _ (λ w, (if decide (lo mod W = w) then [lo] else [])
                                   ++ residue_class W w (S lo) n));
      [|intros ? ? _; apply residue_class_cons].
    rewrite concat_fmap_app_perm, concat_select_one, IH.
    rewrite decide_True; [done|].
    pose proof (Nat.mod_upper_bound lo W). lia.
Qed.

Lemma assigned_iff W N fa w l i :
  frameAssignments W N = Some fa → fa !! w = Some l →
  i ∈ l ↔ i < N ∧ i mod W = w.
Proof.
  intros Hfa Hl. destruct (decide (W = 0)) as [->|HW].
  - destruct N as [|N]; [|by vm_compute in Hfa].
    injection Hfa as <-. done.
  - rewrite (frameAssignments_lookup W N fa w) in Hl by (lia || done).
    case_decide; [|done]. injection Hl as <-.
    rewrite elem_of_residue_class. lia.
Qed.

Lemma assigned_sorted W N fa w l :
  frameAssignments W N = Some fa → fa !! w = Some l → StronglySorted lt l.
Proof.
  intros Hfa Hl. destruct (decide (W = 0)) as [->|HW].
  - destruct N as [|N]; [|by vm_compute in Hfa].
    injection Hfa as <-. done.
  - rewrite (frameAssignments_lookup W N fa w) in Hl by (lia || done).
    case_decide; [|done]. injection Hl as <-. apply residue_class_sorted.
Qed.

Lemma sorted_lt_lookup_inj (l : list nat) k1 k2 i :
  StronglySorted lt l → l !! k1 = Some i → l !! k2 = Some i → k1 = k2.
Proof.
  intros Hs. revert k1 k2. induction Hs as [|a l Hs IH Hall]; intros k1 k2.
  - done.
  - rewrite Forall_forall in Hall.
    destruct k1 as [|k1], k2 as [|k2]; cbn; intros H1 H2.
    + done.
    + injection H1 as ->. apply list_elem_of_lookup_2, Hall in H2. lia.
    + injection H2 as ->. apply list_elem_of_lookup_2, Hall in H1. lia.
    + f_equal. by apply IH.
Qed.

Lemma assigned_lookup_inj W N fa w l k1 k2 i :
  frameAssignments W N = Some fa → fa !! w = Some l →
  l !! k1 = Some i → l !! k2 = Some i → k1 = k2.
Proof.
  intros Hfa Hl. apply sorted_lt_lookup_inj. by eapply assigned_sorted.
Qed.

Lemma frameAssignments_length W N fa :
  0 < W → frameAssignments W N = Some fa → length fa = W.
Proof.
  intros HW. rewrite frameAssignments_closed by done. intros [= <-].
  by rewrite length_fmap, length_seq.
Qed.

(** Without workers [i % numWorkers] is [NaN] and the first [push] throws. *)
Lemma frameAssignments_no_workers N : frameAssignments 0 (S N) = None.
Proof. reflexivity. Qed.

Lemma frameAssignments_cover W N :
  0 < W →
  ∃ fa, frameAssignments W N = Some fa ∧
    ∀ i, i < N → ∃ l, fa !! (i mod W) = Some l ∧ i ∈ l.
Proof.
  intros HW. eexists. split; [by apply frameAssignments_closed|].
  intros i Hi. eexists. split.
  - rewrite list_lookup_fmap, lookup_seq_lt; [done|].
    apply Nat.mod_upper_bound. lia.
  - apply elem_of_residue_class. lia.
Qed.

(** C10.  For every frame count [N] and worker count [W] (at least one
    worker), [frameAssignments] returns one list per worker and these
    lists partition [0, N): index [i] is in the list of worker [i mod W]
    and in no other, every index below [N] is assigned, nothing else is,
    the lists together hold each index exactly once, and every list is
    strictly ascending. *)
Theorem frameAssignments_partition (W N : nat) :
  0 < W →
  ∃ fa, frameAssignments W N = Some fa ∧ length fa = W ∧
    (∀ i, i < N → ∃ l, fa !! (i mod W) = Some l ∧ i ∈ l) ∧
    (∀ w l i, fa !! w = Some l → i ∈ l → i < N ∧ w = i mod W) ∧
    (∀ w1 w2 l1 l2 i, fa !! w1 = Some l1 → fa !! w2 = Some l2 →
       i ∈ l1 → i ∈ l2 → w1 = w2) ∧
    concat fa ≡ₚ seq 0 N ∧
    (∀ w l, fa !! w = Some l → StronglySorted lt l).
Proof.
  intros HW. eexists. split; [by apply frameAssignments_closed|].
  pose proof (frameAssignments_closed W N HW) as Hfa.
  split; [by rewrite length_fmap, length_seq|].
  split; [|split; [|split; [|split]]].
  - intros i Hi. eexists. split.
    + rewrite list_lookup_fmap, lookup_seq_lt; [done|].
      apply Nat.mod_upper_bound. lia.
    + apply elem_of_residue_class. lia.
  - intros w l i Hl Hi. apply (assigned_iff W N _ w l i Hfa Hl) in Hi. lia.
  - intros w1 w2 l1 l2 i Hl1 Hl2 Hi1 Hi2.
    apply (assigned_iff W N _ w1 l1 i Hfa Hl1) in Hi1.
    apply (assigned_iff W N _ w2 l2 i Hfa Hl2) in Hi2. lia.
  - by apply concat_residue_classes.
  - intros w l Hl. by eapply assigned_sorted.
Qed.

(** The partition theorem at 60 frames and 4 workers. *)
Lemma frameAssignments_partition_witness :
  ∃ fa, frameAssignments 4 60 = Some fa ∧ length fa = 4 ∧
    (∀ i, i < 60 → ∃ l, fa !! (i mod 4) = Some l ∧ i ∈ l) ∧
    (∀ w l i, fa !! w = Some l → i ∈ l → i < 60 ∧ w = i mod 4) ∧
    (∀ w1 w2 l1 l2 i, fa !! w1 = Some l1 → fa !! w2 = Some l2 →
       i ∈ l1 → i ∈ l2 → w1 = w2) ∧
    concat fa ≡ₚ seq 0 60 ∧
    (∀ w l, fa !! w = Some l → StronglySorted lt l).
Proof. apply (frameAssignments_partition 4 60). lia. Defined.

End SchedulerProps.

(** ** Ordering, flow control and the encoder output *)

Module PipelineProps.
Import Scheduler Pipeline SchedulerProps.

Lemma collect_spec fps room : ∀ buf la batch buf' la',
  collect fps room buf la = (batch, buf', la') →
  la' = la + length batch ∧ length batch ≤ room ∧
  (∀ i, buf' !! i = if decide (la ≤ i < la') then None else buf !! i) ∧
  (∀ k f, batch !! k = Some f →
     buf !! (la + k) = Some (dataUrl f) ∧
     timestamp f = timestamp_of fps (la + k)) ∧
  (length batch < room → buf !! la' = None).
Proof.
  induction room as [|room IH]; intros buf la batch buf' la' Hc; cbn in Hc.
  - injection Hc as <- <- <-. cbn. split; [lia|]. split; [lia|].
    split; [|split; [done|intros ?; exfalso; cbn in *; lia]].
    intros i. by rewrite decide_False by lia.
  - destruct (buf !! la) as [d|] eqn:Hla.
    + destruct (collect fps room (delete la buf) (S la))
        as [[batch0 buf0] la0] eqn:Hrec.
      injection Hc as <- <- <-.
      destruct (IH _ _ _ _ _ Hrec) as (Hla0 & Hlen & Hbuf & Hbatch & Hstop).
      cbn [length]. split; [lia|]. split; [lia|].
      split; [|split].
      * intros i. rewrite Hbuf.
        destruct (decide (i = la)) as [->|Hne].
        -- rewrite lookup_delete_eq.
           destruct (decide (S la ≤ la < la0)), (decide (la ≤ la < la0));
             try done; lia.
        -- rewrite lookup_delete_ne by done.
           destruct (decide (S la ≤ i < la0)), (decide (la ≤ i < la0));
             try done; lia.
      * intros [|k] f Hf; cbn in Hf.
        -- injection Hf as <-. cbn. by rewrite Nat.add_0_r.
        -- destruct (Hbatch k f Hf) as [Hl Ht].
           rewrite lookup_delete_ne in Hl by lia.
           replace (la + S k) with (S la + k) by lia. done.
      * intros Hlt. specialize (Hstop ltac:(lia)).
        by rewrite lookup_delete_ne in Hstop by lia.
    + injection Hc as <- <- <-. cbn. split; [lia|]. split; [lia|].
      split; [|split; [done|]].
      * intros i. by rewrite decide_False by lia.
      * done.
Qed.

Lemma collect_size fps room : ∀ buf la batch buf' la',
  collect fps room buf la = (batch, buf', la') →
  size buf' + length batch = size buf.
Proof.
  induction room as [|room IH]; intros buf la batch buf' la' Hc; cbn in Hc.
  - injection Hc as <- <- <-. cbn. lia.
  - destruct (buf !! la) as [d|] eqn:Hla.
    + destruct (collect fps room (delete la buf) (S la))
        as [[batch0 buf0] la0] eqn:Hrec.
      injection Hc as <- <- <-. apply IH in Hrec. cbn [length].
      pose proof (map_size_insert_None la d (delete la buf)
                    (lookup_delete_eq buf la)) as Hs.
      rewrite insert_delete_id in Hs by done. lia.
    + injection Hc as <- <- <-. cbn. lia.
Qed.

(** With the head of the line missing nothing is collected. *)
Lemma collect_blocked fps room buf la :
  buf !! la = None → collect fps room buf la = ([], buf, la).
Proof. intros H. destruct room; cbn; [done|]. by rewrite H. Qed.

Section Core.
Context (j : job).

Lemma frame_eta (f : frame) : Frame (dataUrl f) (timestamp f) = f.
Proof. by destruct f. Qed.

(** On a buffer that holds the right payloads the batch is the run of
    frames from [la] on. *)
Lemma collect_frames room buf la batch buf' la' :
  (∀ i x, buf !! i = Some x → x = dataUrl (frame_of j i)) →
  collect (fps j) room buf la = (batch, buf', la') →
  batch = frame_of j <$> seq la (length batch).
Proof.
  intros Hbuf Hc. apply collect_spec in Hc as (_ & _ & _ & Hb & _).
  apply list_eq. intros k. rewrite list_lookup_fmap.
  destruct (batch !! k) as [f|] eqn:Hf.
  - rewrite lookup_seq_lt by (by eapply lookup_lt_Some).
    cbn. f_equal. destruct (Hb k f Hf) as [Hd Ht].
    apply Hbuf in Hd. rewrite <- (frame_eta f). unfold frame_of.
    cbn in Hd. rewrite Hd, Ht. done.
  - apply lookup_ge_None in Hf. by rewrite lookup_seq_ge.
Qed.

Lemma upd_same pend t p : upd pend t p t = p.
Proof. unfold upd. by rewrite decide_True. Qed.

Lemma upd_other pend t p t' : t' ≠ t → upd pend t p t' = pend t'.
Proof. intros. unfold upd. by rewrite decide_False. Qed.

Lemma core_ext buf next enc out pend pend' d :
  (∀ t, pend' t = pend t) →
  core j buf next enc out pend d → core j buf next enc out pend' d.
Proof.
  intros Hext [Ho Hd Hb]. split; [done| |done].
  destruct Hd as [(Hn & ?)|(t & p & Hp & Hn & ?)].
  - left. split; [|done]. intros t. by rewrite Hext.
  - right. exists t, p. rewrite Hext. split; [done|]. split; [|done].
    intros t' ?. rewrite Hext. by apply Hn.
Qed.

(** A call of [processEncodeQueue] by a task with nothing in flight. *)
Lemma core_call buf next enc out pend d t batch buf' la :
  core j buf next enc out pend d → pend t = None →
  collect (fps j) ENCODE_BATCH_SIZE buf next = (batch, buf', la) →
  ∃ d', core j buf' next enc out
          (upd pend t (if decide (0 < length batch)
                       then Some (Pending la (length batch) batch) else None))
          d' ∧
        size buf' ≤ size buf ∧
        (∀ i, i < d' ∨ is_Some (buf' !! i) ↔ i < d ∨ is_Some (buf !! i)).
Proof.
  intros [Ho Hd Hb] Ht Hc.
  pose proof (collect_size _ _ _ _ _ _ _ Hc) as Hsize.
  destruct Hd as [(Hn & -> & -> & Hlen)|(t0 & p & Hp & Hn & Hla & Hnext & Hpos & -> & Hle & Htodo)].
  - (* idle: the batch starts at [d] *)
    pose proof (collect_frames _ _ _ _ _ _ (λ i x H, proj2 (Hb i x H)) Hc) as Hfr.
    apply collect_spec in Hc as (-> & Hroom & Hbuf' & Hbatch & Hstop).
    exists (d + length batch). split; [split|split].
    + done.
    + case_decide as Hpos.
      * right. exists t, (Pending (d + length batch) (length batch) batch).
        rewrite upd_same. split; [done|]. split.
        { intros t' ?. rewrite upd_other by done. apply Hn. }
        cbn. split; [done|]. split; [done|]. split; [done|]. split; [done|].
        split; [lia|]. rewrite Hlen.
        replace (d + length batch - d) with (length batch) by lia. done.
      * left. split.
        { intros t'. unfold upd. case_decide; [done|apply Hn]. }
        repeat split; lia.
    + intros i x. rewrite Hbuf'. case_decide; [done|]. intros Hi.
      destruct (Hb i x Hi) as [? ->]. split; [lia|done].
    + lia.
    + intros i. rewrite Hbuf'. case_decide as Hi.
      * split; [intros _|intros _; left; lia].
        right. destruct Hi as [Hi1 Hi2].
        assert (Hk : i - d < length batch) by lia.
        destruct (lookup_lt_is_Some_2 batch (i - d) Hk) as [f Hf].
        destruct (Hbatch _ _ Hf) as [Hbi _].
        replace (d + (i - d)) with i in Hbi by lia. by eexists.
      * split; (intros [?|Hs]; [|by right]).
        -- left. lia.
        -- left. lia.
  - (* busy: the head of the line is gone, nothing is collected *)
    assert (Hhead : buf !! next = None).
    { destruct (buf !! next) as [x|] eqn:Hx; [|done].
      apply Hb in Hx. lia. }
    rewrite collect_blocked in Hc by done. injection Hc as <- <- <-.
    exists d. split; [split|split].
    + done.
    + right. exists t0, p.
      assert (t0 ≠ t) by (intros ->; congruence).
      rewrite upd_other by done. split; [done|]. split.
      { intros t' ?. unfold upd. case_decide; [done|by apply Hn]. }
      done.
    + done.
    + lia.
    + done.
Qed.

(** The [await] of [processEncodeQueue] is over: the counters move. *)
Lemma core_return buf next enc out pend d t la n :
  core j buf next enc out pend d → pend t = Some (Pending la n []) →
  core j buf la (enc + n) out (upd pend t None) d.
Proof.
  intros [Ho Hd Hb] Ht. split; [done| |done].
  destruct Hd as [(Hn & _)|(t0 & p & Hp & Hn & Hla & Hnext & Hpos & -> & Hle & Htodo)].
  - rewrite Hn in Ht. done.
  - destruct (decide (t0 = t)) as [->|Hne]; [|rewrite Hn in Ht; done].
    rewrite Hp in Ht. injection Ht as ->. cbn in *. subst la.
    left. split.
    { intros t'. unfold upd. case_decide; [done|by apply Hn]. }
    split; [done|]. split; [lia|].
    symmetry in Htodo. apply fmap_nil_inv in Htodo.
    apply (f_equal length) in Htodo. rewrite length_seq in Htodo.
    cbn in Htodo. lia.
Qed.

(** The encoder page adds the next frame of the batch in flight. *)
Lemma core_add buf next enc out pend d t p f rest :
  core j buf next enc out pend d → pend t = Some p → todo p = f :: rest →
  core j buf next enc
    (out ++ [Sample (dataUrl f) (timestamp f) (1 / fps j)%Q])
    (upd pend t (Some (Pending (lookahead p) (batch_length p) rest))) d.
Proof.
  intros [Ho Hd Hb] Ht Hf.
  destruct Hd as [(Hn & _)|(t0 & p0 & Hp & Hn & Hla & Hnext & Hpos & -> & Hle & Htodo)].
  { rewrite Hn in Ht. done. }
  destruct (decide (t0 = t)) as [->|Hne]; [|rewrite Hn in Ht; done].
  rewrite Hp in Ht. injection Ht as ->. rewrite Hf in Htodo.
  destruct (d - length out) as [|m] eqn:Hm; [done|].
  cbn in Htodo. injection Htodo as -> ->.
  split.
  - rewrite length_app. cbn. rewrite Nat.add_1_r, seq_S, fmap_app.
    cbn. rewrite <- Ho. done.
  - right. exists t, (Pending (lookahead p) (batch_length p)
                        (frame_of j <$> seq (S (length out)) m)).
    rewrite upd_same. split; [done|]. split.
    { intros t' ?. rewrite upd_other by done. by apply Hn. }
    cbn. split; [done|]. split; [done|]. split; [done|]. split; [done|].
    rewrite length_app. cbn. split; [lia|].
    replace (length out + 1) with (S (length out)) by lia.
    replace (d - S (length out)) with m by lia. done.
  - done.
Qed.

(** A frame that is still to be drained arrives. *)
Lemma core_insert buf next enc out pend d i :
  core j buf next enc out pend d → d ≤ i →
  core j (<[i := dataUrl (frame_of j i)]> buf) next enc out pend d.
Proof.
  intros [Ho Hd Hb] Hi. split; [done|done|].
  intros i' x. rewrite lookup_insert. case_decide as Heq.
  - subst i'. intros [= <-]. done.
  - apply Hb.
Qed.

End Core.

(** ** Bookkeeping on the task list *)

Lemma pending_of_set_worker s w pc pc' b n e o t :
  workers s !! w = Some pc →
  pending_of (State b n e o (<[w := pc']> (workers s)) (main s)) t =
  upd (pending_of s) (Worker w) (worker_pending pc') t.
Proof.
  intros Hw. unfold upd. destruct t as [w'|]; cbn.
  - destruct (decide (w' = w)) as [->|Hne].
    + rewrite decide_True by done.
      rewrite list_lookup_insert_eq by (by eapply lookup_lt_Some). done.
    + rewrite decide_False by congruence.
      by rewrite list_lookup_insert_ne.
  - by rewrite decide_False.
Qed.

Lemma pending_of_set_main s pc b n e o t :
  pending_of (State b n e o (workers s) pc) t =
  upd (pending_of s) Main (main_pending pc) t.
Proof.
  unfold upd. destruct t as [w'|]; cbn.
  - by rewrite decide_False.
  - by rewrite decide_True.
Qed.

Lemma inserted_set_worker fa ws w frames pc pc' (Q : nat → Prop) :
  fa !! w = Some frames → ws !! w = Some pc →
  (∀ i, inserted_by frames pc' i ↔ inserted_by frames pc i ∨ Q i) →
  ∀ i, inserted fa (<[w := pc']> ws) i ↔ inserted fa ws i ∨ Q i.
Proof.
  intros Hfa Hw Hby i. split.
  - intros (w' & frames' & pc0 & Hf & Hl & Hi).
    destruct (decide (w' = w)) as [->|Hne].
    + rewrite list_lookup_insert_eq in Hl by (by eapply lookup_lt_Some).
      injection Hl as <-. rewrite Hfa in Hf. injection Hf as <-.
      apply Hby in Hi as [Hi|Hi]; [left|by right].
      by exists w, frames, pc.
    + rewrite list_lookup_insert_ne in Hl by done.
      left. by exists w', frames', pc0.
  - intros [(w' & frames' & pc0 & Hf & Hl & Hi)|HQ].
    + destruct (decide (w' = w)) as [->|Hne].
      * rewrite Hw in Hl. injection Hl as <-.
        rewrite Hfa in Hf. injection Hf as <-.
        exists w, frames, pc'. split; [done|]. split.
        { by rewrite list_lookup_insert_eq by (by eapply lookup_lt_Some). }
        apply Hby. by left.
      * exists w', frames', pc0. split; [done|]. split; [|done].
        by rewrite list_lookup_insert_ne.
    + exists w, frames, pc'. split; [done|]. split.
      { by rewrite list_lookup_insert_eq by (by eapply lookup_lt_Some). }
      apply Hby. by right.
Qed.

Lemma inserted_set_worker_same fa ws w frames pc pc' :
  fa !! w = Some frames → ws !! w = Some pc →
  (∀ i, inserted_by frames pc' i ↔ inserted_by frames pc i) →
  ∀ i, inserted fa (<[w := pc']> ws) i ↔ inserted fa ws i.
Proof.
  intros Hfa Hw Hby i.
  rewrite (inserted_set_worker fa ws w frames pc pc' (λ _, False)); try done.
  - tauto.
  - intros i'. rewrite Hby. tauto.
Qed.

Lemma inserted_by_progress frames pc pc' i :
  progress frames pc' = progress frames pc →
  inserted_by frames pc' i ↔ inserted_by frames pc i.
Proof. unfold inserted_by. by intros ->. Qed.

Lemma inserted_by_next frames k pc pc' idx i :
  frames !! k = Some idx →
  progress frames pc = k → progress frames pc' = S k →
  inserted_by frames pc' i ↔ inserted_by frames pc i ∨ i = idx.
Proof.
  intros Hk Hp Hp'. unfold inserted_by. rewrite Hp, Hp'. split.
  - intros (k' & Hk' & Hlt). destruct (decide (k' = k)) as [->|Hne].
    + right. congruence.
    + left. exists k'. split; [done|lia].
  - intros [(k' & Hk' & Hlt)| ->].
    + exists k'. split; [done|lia].
    + exists k. split; [done|lia].
Qed.

(** Leaving the loop when the list is exhausted changes nothing. *)
Lemma inserted_by_finished frames k p i :
  frames !! S k = None →
  inserted_by frames Finished i ↔
  inserted_by frames (Draining k AfterInsert p) i.
Proof.
  intros Hnone. apply lookup_ge_None in Hnone. unfold inserted_by. cbn.
  split; intros (k' & Hk' & Hlt); exists k'; (split; [done|]).
  - lia.
  - by eapply lookup_lt_Some.
Qed.

(** ** The invariant holds along every schedule *)

Local Arguments collect : simpl never.
Local Arguments processEncodeQueue_call : simpl never.

Section Preservation.
Context (j : job) (fa : list (list nat)).
Hypothesis Hfa : frameAssignments (numWorkers j) (totalFrames j) = Some fa.

Lemma owner w frames k i :
  fa !! w = Some frames → frames !! k = Some i →
  i < totalFrames j ∧ i mod numWorkers j = w.
Proof.
  intros Hw Hk. apply list_elem_of_lookup_2 in Hk.
  by apply (assigned_iff _ _ _ _ _ _ Hfa Hw) in Hk.
Qed.

(** The frame a worker is about to deliver has not been delivered. *)
Lemma next_frame_fresh ws w frames pc idx :
  fa !! w = Some frames → ws !! w = Some pc →
  frames !! progress frames pc = Some idx →
  ¬ inserted fa ws idx.
Proof.
  intros Hw Hpc Hk (w' & frames' & pc' & Hw' & Hpc' & k' & Hk' & Hlt).
  destruct (owner _ _ _ _ Hw Hk) as [_ Ho].
  destruct (owner _ _ _ _ Hw' Hk') as [_ Ho'].
  assert (w' = w) as -> by congruence.
  assert (frames' = frames) as -> by congruence.
  assert (pc' = pc) as -> by congruence.
  pose proof (assigned_lookup_inj _ _ _ _ _ _ _ _ Hfa Hw Hk Hk'). lia.
Qed.

Lemma worker_step_inv s d w pc pc' buf' next' enc' out' d' :
  invariant j fa s d → workers s !! w = Some pc → pc ≠ Finished →
  core j buf' next' enc' out'
    (upd (pending_of s) (Worker w) (worker_pending pc')) d' →
  (∀ i, inserted fa (<[w := pc']> (workers s)) i ↔
        i < d' ∨ is_Some (buf' !! i)) →
  invariant j fa
    (State buf' next' enc' out' (<[w := pc']> (workers s)) (main s)) d'.
Proof.
  intros [Hc Hi Hm He] Hw Hpc Hc' Hi'. split; cbn.
  - eapply core_ext; [|exact Hc']. intros t.
    by eapply pending_of_set_worker.
  - done.
  - intros Hma. exfalso. apply Hpc. by eapply Hm.
  - intros Hma. exfalso. apply Hpc. eapply Hm; [|done]. by rewrite Hma.
Qed.

Lemma main_step_inv s d mpc' buf' next' enc' out' d' :
  invariant j fa s d →
  core j buf' next' enc' out' (upd (pending_of s) Main (main_pending mpc')) d' →
  (∀ i, i < d' ∨ is_Some (buf' !! i) ↔ i < d ∨ is_Some (frameBuffer s !! i)) →
  (mpc' ≠ AwaitWorkers → ∀ w pc, workers s !! w = Some pc → pc = Finished) →
  (mpc' = Encoded → totalFrames j ≤ enc') →
  invariant j fa (State buf' next' enc' out' (workers s) mpc') d'.
Proof.
  intros [Hc Hi Hm He] Hc' Hi' Hm' He'. split; cbn.
  - eapply core_ext; [|exact Hc']. intros t. apply pending_of_set_main.
  - intros i. rewrite Hi, Hi'. done.
  - done.
  - done.
Qed.

Lemma pending_capturing_none s w pc :
  workers s !! w = Some pc → worker_pending pc = None →
  pending_of s (Worker w) = None.
Proof. intros Hw Hp. cbn. by rewrite Hw. Qed.

Lemma upd_id (pend : task → option pending) t p t' :
  pend t = p → upd pend t p t' = pend t'.
Proof. intros <-. unfold upd. case_decide; congruence. Qed.

Lemma processEncodeQueue_call_eq s :
  ∃ batch buf' la,
    collect (fps j) ENCODE_BATCH_SIZE (frameBuffer s) (nextEncodeFrame s)
      = (batch, buf', la) ∧
    processEncodeQueue_call j s =
      (set_buffer buf' s,
       if decide (0 < length batch)
       then Some (Pending la (length batch) batch) else None).
Proof.
  unfold processEncodeQueue_call.
  destruct (collect _ _ _ _) as [[batch buf'] la]. by exists batch, buf', la.
Qed.

Lemma runWorker_inv s d w s' :
  invariant j fa s d → runWorker j fa w s = Some s' →
  ∃ d', invariant j fa s' d'.
Proof.
  intros Hinv Hstep. unfold runWorker in Hstep.
  destruct (fa !! w) as [frames|] eqn:Hw; [|done]. cbn in Hstep.
  destruct (workers s !! w) as [pc|] eqn:Hpc; [|done]. cbn in Hstep.
  pose proof Hinv as [Hc Hi Hm He].
  destruct pc as [k|k|k st p|]; [| | |done].
  - (* the capture returns: insert, then call processEncodeQueue *)
    destruct (frames !! k) as [idx|] eqn:Hk; [|done].
    cbn [mbind option_bind] in Hstep.
    destruct (processEncodeQueue_call_eq
                (frameBuffer_set idx (captureFrameJPEG j (S w)
                                        (timestamp_of (fps j) idx)) s))
      as (batch & buf' & la & Hcol & Heq).
    rewrite Heq in Hstep.
    cbn [frameBuffer nextEncodeFrame set_buffer frameBuffer_set] in Hcol.
    injection Hstep as <-.
    destruct (owner _ _ _ _ Hw Hk) as [_ Ho].
    assert (Hfresh : ¬ inserted fa (workers s) idx)
      by (by eapply next_frame_fresh).
    assert (Hd : d ≤ idx ∧ frameBuffer s !! idx = None).
    { rewrite Hi in Hfresh. split; [lia|].
      destruct (frameBuffer s !! idx) eqn:?; [|done].
      exfalso. apply Hfresh. right. by eexists. }
    destruct Hd as [Hd Hnone].
    assert (Hurl : captureFrameJPEG j (S w) (timestamp_of (fps j) idx)
                   = dataUrl (frame_of j idx)).
    { unfold frame_of. cbn. by rewrite Ho. }
    rewrite Hurl in Hcol.
    pose proof (core_insert j _ _ _ _ _ _ idx Hc Hd) as Hc1.
    destruct (core_call j _ _ _ _ _ _ (Worker w) _ _ _ Hc1
                (pending_capturing_none _ _ _ Hpc eq_refl) Hcol)
      as (d' & Hc2 & _ & Hdom).
    exists d'. eapply (worker_step_inv s d w); try done.
    intros i.
    rewrite (inserted_set_worker fa _ w frames _ _ (λ i, i = idx) Hw Hpc).
    2:{ intros i'. by apply (inserted_by_next frames k). }
    rewrite Hi, Hdom. rewrite lookup_insert.
    destruct (decide (idx = i)) as [->|Hne].
    + split; [intros _|intros _; by right].
      right. by eexists.
    + split; [intros [?|?]; [done|congruence]|tauto].
  - (* the timer fires: call processEncodeQueue *)
    destruct (processEncodeQueue_call_eq s)
      as (batch & buf' & la & Hcol & Heq).
    rewrite Heq in Hstep. injection Hstep as <-.
    destruct (core_call j _ _ _ _ _ _ (Worker w) _ _ _ Hc
                (pending_capturing_none _ _ _ Hpc eq_refl) Hcol)
      as (d' & Hc2 & _ & Hdom).
    exists d'. eapply (worker_step_inv s d w); try done.
    intros i.
    rewrite (inserted_set_worker_same fa _ w frames _ _ Hw Hpc).
    2:{ intros i'. by apply inserted_by_progress. }
    rewrite Hi, Hdom. done.
  - (* processEncodeQueue returns *)
    assert (Hret : ∃ next' enc',
      processEncodeQueue_return p s =
        Some (State (frameBuffer s) next' enc' (output s) (workers s) (main s))
      ∧ core j (frameBuffer s) next' enc' (output s)
          (upd (pending_of s) (Worker w) None) d).
    { destruct p as [[la n [|f rest]]|]; cbn.
      - eexists _, _. split; [done|]. eapply core_return; [done|].
        cbn. by rewrite Hpc.
      - cbn in Hstep. done.
      - exists (nextEncodeFrame s), (encodedCount s).
        split; [by destruct s|].
        eapply core_ext; [|done]. intros t. apply upd_id.
        cbn. by rewrite Hpc. }
    destruct Hret as (next' & enc' & Hret & Hc1).
    rewrite Hret in Hstep. cbn in Hstep. injection Hstep as <-.
    exists d. unfold set_worker. cbn.
    eapply (worker_step_inv s d w); try done.
    + eapply core_ext; [|done]. intros t. unfold upd. case_decide; [|done].
      destruct st; cbn.
      * unfold wait_loop. by case_decide.
      * unfold iteration, wait_loop.
        destruct (frames !! S k); [|done]. by repeat case_decide.
    + intros i. rewrite <- Hi.
      apply (inserted_set_worker_same fa _ w frames _ _ Hw Hpc).
      intros i'. destruct st; cbn.
      * apply inserted_by_progress. unfold wait_loop. by case_decide.
      * unfold iteration, wait_loop.
        destruct (frames !! S k) eqn:Hk.
        -- apply inserted_by_progress. by repeat case_decide.
        -- by apply inserted_by_finished.
Qed.

Lemma all_finished ws :
  forallb is_finished ws = true → ∀ w pc, ws !! w = Some pc → pc = Finished.
Proof.
  intros Hall w pc Hw. apply list_elem_of_lookup_2, list_elem_of_In in Hw.
  rewrite forallb_forall in Hall. apply Hall in Hw. by destruct pc.
Qed.

Lemma drain_loop_inv s d :
  invariant j fa s d → pending_of s Main = None →
  (∀ w pc, workers s !! w = Some pc → pc = Finished) →
  ∃ d', invariant j fa (drain_loop j s) d'.
Proof.
  intros Hinv Hp Hfin. pose proof Hinv as [Hc Hi Hm He].
  unfold drain_loop. case_decide as Hlt.
  - destruct (processEncodeQueue_call_eq s)
      as (batch & buf' & la & Hcol & Heq).
    rewrite Heq.
    destruct (core_call j _ _ _ _ _ _ Main _ _ _ Hc Hp Hcol)
      as (d' & Hc2 & _ & Hdom).
    exists d'. by eapply (main_step_inv s d).
  - exists d. eapply (main_step_inv s d); try done.
    + eapply core_ext; [|done]. intros t. by apply upd_id.
    + intros _. lia.
Qed.

Lemma runMain_inv s d s' :
  invariant j fa s d → runMain j s = Some s' → ∃ d', invariant j fa s' d'.
Proof.
  intros Hinv Hstep. unfold runMain in Hstep.
  pose proof Hinv as [Hc Hi Hm He].
  destruct (main s) as [|p| |] eqn:Hmain; [| | |done].
  - destruct (forallb is_finished (workers s)) eqn:Hall; [|done].
    injection Hstep as <-. apply (drain_loop_inv s d); [done| |].
    + cbn. by rewrite Hmain.
    + by apply all_finished.
  - assert (Hret : ∃ next' enc',
      processEncodeQueue_return p s =
        Some (State (frameBuffer s) next' enc' (output s) (workers s) (main s))
      ∧ core j (frameBuffer s) next' enc' (output s)
          (upd (pending_of s) Main None) d).
    { destruct p as [[la n [|f rest]]|]; cbn.
      - eexists _, _. split; [done|]. eapply core_return; [done|].
        cbn. by rewrite Hmain.
      - cbn in Hstep. done.
      - exists (nextEncodeFrame s), (encodedCount s).
        split; [destruct s; cbn in *; by subst|].
        eapply core_ext; [|done]. intros t. apply upd_id.
        cbn. by rewrite Hmain. }
    destruct Hret as (next' & enc' & Hret & Hc1).
    rewrite Hret in Hstep. cbn in Hstep. injection Hstep as <-.
    exists d. case_decide as Hlt; unfold set_main; cbn.
    + eapply (main_step_inv s d); try done. intros _. apply Hm. done.
    + eapply (main_step_inv s d); try done.
      * intros _. apply Hm. done.
      * intros _. lia.
  - injection Hstep as <-. apply (drain_loop_inv s d); [done| |].
    + cbn. by rewrite Hmain.
    + apply Hm. done.
Qed.

Lemma loadAndEncode_add_eq p s p' s1 :
  loadAndEncode_add j p s = Some (p', s1) →
  ∃ f rest, todo p = f :: rest ∧
    p' = Pending (lookahead p) (batch_length p) rest ∧
    s1 = set_output
           (output s ++ [Sample (dataUrl f) (timestamp f) (1 / fps j)%Q]) s.
Proof.
  unfold loadAndEncode_add. destruct (todo p) as [|f rest]; [done|].
  intros [= <- <-]. by exists f, rest.
Qed.

Lemma encoder_step_inv s d t s' :
  invariant j fa s d → encoder_step j t s = Some s' →
  ∃ d', invariant j fa s' d'.
Proof.
  intros Hinv Hstep. pose proof Hinv as [Hc Hi Hm He].
  destruct t as [w|]; cbn in Hstep.
  - destruct (workers s !! w) as [pc|] eqn:Hpc; [|done]. cbn in Hstep.
    destruct pc as [| |k st [p|]|]; try done.
    destruct (loadAndEncode_add j p s) as [[p' s1]|] eqn:Hadd; [|done].
    cbn in Hstep. injection Hstep as <-.
    apply loadAndEncode_add_eq in Hadd as (f & rest & Hf & -> & ->).
    destruct (fa !! w) as [frames|] eqn:Hw.
    + exists d. eapply (worker_step_inv s d w); try done.
      * eapply core_add; [done| |done]. cbn. by rewrite Hpc.
      * intros i. rewrite <- Hi.
        by apply (inserted_set_worker_same fa _ w frames _ _ Hw Hpc).
    + exists d. eapply (worker_step_inv s d w); try done.
      * eapply core_add; [done| |done]. cbn. by rewrite Hpc.
      * intros i. rewrite <- Hi. split.
        -- intros (w' & frames' & pc' & Hw' & Hpc' & Hby).
           exists w', frames', pc'. split; [done|]. split; [|done].
           rewrite list_lookup_insert_ne in Hpc'; [done|congruence].
        -- intros (w' & frames' & pc' & Hw' & Hpc' & Hby).
           exists w', frames', pc'. split; [done|]. split; [|done].
           rewrite list_lookup_insert_ne; [done|congruence].
  - destruct (main s) as [|[p|]| |] eqn:Hmain; try done.
    destruct (loadAndEncode_add j p s) as [[p' s1]|] eqn:Hadd; [|done].
    cbn in Hstep. injection Hstep as <-.
    apply loadAndEncode_add_eq in Hadd as (f & rest & Hf & -> & ->).
    exists d. eapply (main_step_inv s d); try done.
    + eapply core_add; [done| |done]. cbn. by rewrite Hmain.
    + intros _. apply Hm. done.
Qed.

Lemma step_inv s d e s' :
  invariant j fa s d → step j fa e s = Some s' → ∃ d', invariant j fa s' d'.
Proof.
  destruct e as [[w|]|t]; cbn.
  - apply runWorker_inv.
  - apply runMain_inv.
  - apply encoder_step_inv.
Qed.

Lemma run_inv tr : ∀ s d s',
  invariant j fa s d → run j fa tr s = Some s' → ∃ d', invariant j fa s' d'.
Proof.
  induction tr as [|e tr IH]; intros s d s' Hinv Hrun; cbn in Hrun.
  - injection Hrun as <-. by exists d.
  - destruct (step j fa e s) as [s1|] eqn:Hstep; [|done]. cbn in Hrun.
    destruct (step_inv _ _ _ _ Hinv Hstep) as [d1 Hinv1].
    by eapply IH.
Qed.

Lemma launch_worker frames :
  iteration frames 0 (State ∅ 0 0 [] [] AwaitWorkers) =
  match frames !! 0 with Some _ => Capturing 0 | None => Finished end.
Proof. unfold iteration. by destruct (frames !! 0). Qed.

Lemma launch_inv : invariant j fa (launch fa) 0.
Proof.
  assert (Hpc : ∀ w pc, workers (launch fa) !! w = Some pc →
            ∃ frames, fa !! w = Some frames ∧
              pc = match frames !! 0 with
                   | Some _ => Capturing 0 | None => Finished end).
  { intros w pc. cbn. rewrite list_lookup_fmap.
    destruct (fa !! w) as [frames|]; [|done]. cbn. intros [= <-].
    exists frames. split; [done|]. apply launch_worker. }
  split.
  - split; cbn.
    + done.
    + left. split; [|done]. intros [w|]; [|done]. cbn.
      destruct (_ !! w) as [pc|] eqn:Hw; [|done]. cbn.
      apply Hpc in Hw as (frames & _ & ->). by destruct (frames !! 0).
    + intros i x. by rewrite lookup_empty.
  - intros i. split.
    + intros (w & frames & pc & Hw & Hl & k & Hk & Hlt). exfalso.
      apply Hpc in Hl as (frames' & Hw' & ->).
      assert (frames' = frames) as -> by congruence.
      destruct (frames !! 0) eqn:H0; cbn in Hlt; [lia|].
      apply lookup_ge_None in H0. lia.
    + intros [?|[x Hx]]; [lia|]. cbn in Hx. by rewrite lookup_empty in Hx.
  - done.
  - done.
Qed.

Lemma exec_fa tr s :
  exec j tr = Some s → run j fa tr (launch fa) = Some s.
Proof. unfold exec. rewrite Hfa. done. Qed.

Lemma exec_inv tr s : exec j tr = Some s → ∃ d, invariant j fa s d.
Proof. intros H. apply exec_fa in H. eapply run_inv; [apply launch_inv|done]. Qed.

End Preservation.

(** ** Flow control *)

Lemma capturing_insert ws : ∀ w pc pc',
  ws !! w = Some pc →
  capturing (<[w := pc']> ws) + (if is_capturing pc then 1 else 0) =
  capturing ws + (if is_capturing pc' then 1 else 0).
Proof.
  unfold capturing.
  induction ws as [|x ws IH]; intros w pc pc' Hw; [done|].
  destruct w as [|w]; cbn in Hw.
  - injection Hw as ->. cbn [list_insert insert]. rewrite !filter_cons.
    destruct (is_capturing pc), (is_capturing pc');
      repeat case_decide; cbn [length]; try congruence; lia.
  - change (<[S w := pc']> (x :: ws)) with (x :: <[w := pc']> ws).
    rewrite !filter_cons.
    specialize (IH w pc pc' Hw). case_decide; cbn [length]; lia.
Qed.

Lemma capturing_le ws : capturing ws ≤ length ws.
Proof. apply length_filter. Qed.

Lemma size_call j s s1 p :
  processEncodeQueue_call j s = (s1, p) →
  size (frameBuffer s1) ≤ size (frameBuffer s) ∧ workers s1 = workers s.
Proof.
  unfold processEncodeQueue_call.
  destruct (collect _ _ _ _) as [[batch buf'] la] eqn:Hc.
  intros [= <- _]. cbn. apply collect_size in Hc. split; [lia|done].
Qed.

Lemma return_frame p s s1 :
  processEncodeQueue_return p s = Some s1 →
  frameBuffer s1 = frameBuffer s ∧ workers s1 = workers s.
Proof.
  destruct p as [[la n [|f rest]]|]; cbn; [| |]; intros [= <-]; done.
Qed.

Lemma flow_enter s W w pc pc' buf' n e o m :
  flow_inv s W → workers s !! w = Some pc → is_capturing pc = false →
  size buf' ≤ size (frameBuffer s) →
  (is_capturing pc' = true → size buf' ≤ MAX_BUFFERED_FRAMES) →
  flow_inv (State buf' n e o (<[w := pc']> (workers s)) m) W.
Proof.
  intros [Hsz Hlen] Hw Hpc Hle Hcap.
  split; cbn [frameBuffer workers]; [|by rewrite length_insert].
  pose proof (capturing_insert _ _ _ pc' Hw) as Hc. rewrite Hpc in Hc.
  destruct (is_capturing pc') eqn:Hpc'.
  - specialize (Hcap eq_refl).
    pose proof (capturing_le (<[w := pc']> (workers s))) as Hb.
    rewrite length_insert in Hb. lia.
  - lia.
Qed.

Lemma runWorker_flow j fa s W w s' :
  flow_inv s W → runWorker j fa w s = Some s' → flow_inv s' W.
Proof.
  intros Hflow Hstep. unfold runWorker in Hstep.
  destruct (fa !! w) as [frames|] eqn:Hw; [|done]. cbn in Hstep.
  destruct (workers s !! w) as [pc|] eqn:Hpc; [|done]. cbn in Hstep.
  destruct pc as [k|k|k st p|]; [| | |done].
  - destruct (frames !! k) as [idx|] eqn:Hk; [|done].
    cbn [mbind option_bind] in Hstep.
    destruct (processEncodeQueue_call _ _) as [s2 p] eqn:Hcall.
    injection Hstep as <-. apply size_call in Hcall as [Hsz Hws].
    cbn in Hsz, Hws. destruct Hflow as [Hf Hlen].
    split; cbn [frameBuffer workers set_worker];
      [|by rewrite length_insert, Hws].
    rewrite Hws.
    pose proof (capturing_insert _ _ _ (Draining k AfterInsert p) Hpc) as Hc.
    cbn in Hc.
    assert (size (<[idx := captureFrameJPEG j (S w) (timestamp_of (fps j) idx)]>
                    (frameBuffer s)) ≤ S (size (frameBuffer s))).
    { rewrite map_size_insert. destruct (frameBuffer s !! idx); cbn; lia. }
    lia.
  - destruct (processEncodeQueue_call _ _) as [s1 p] eqn:Hcall.
    injection Hstep as <-. apply size_call in Hcall as [Hsz Hws].
    unfold set_worker. rewrite Hws.
    eapply (flow_enter s W w); try done.
  - destruct (processEncodeQueue_return p s) as [s1|] eqn:Hret; [|done].
    cbn in Hstep. injection Hstep as <-.
    apply return_frame in Hret as [Hb Hws].
    unfold set_worker. rewrite Hws.
    eapply (flow_enter s W w); try done; [by rewrite Hb|].
    destruct st.
    + unfold wait_loop. rewrite Hb. case_decide; [done|]. intros _.
      unfold MAX_BUFFERED_FRAMES, ENCODE_BATCH_SIZE in *. lia.
    + unfold iteration, wait_loop. rewrite Hb.
      destruct (frames !! S k); [|done].
      repeat case_decide; try done; intros _.
      * unfold MAX_BUFFERED_FRAMES, ENCODE_BATCH_SIZE in *. lia.
      * lia.
Qed.

Lemma flow_same_workers s W buf' n e o m :
  flow_inv s W → size buf' ≤ size (frameBuffer s) →
  flow_inv (State buf' n e o (workers s) m) W.
Proof. intros [Hsz Hlen] Hle. split; cbn [frameBuffer workers]; [lia|done]. Qed.

Lemma drain_loop_flow j s W : flow_inv s W → flow_inv (drain_loop j s) W.
Proof.
  intros Hflow. unfold drain_loop. case_decide.
  - destruct (processEncodeQueue_call _ _) as [s1 p] eqn:Hcall.
    apply size_call in Hcall as [Hsz Hws]. unfold set_main. rewrite Hws.
    by apply flow_same_workers.
  - by apply flow_same_workers.
Qed.

Lemma runMain_flow j s W s' :
  flow_inv s W → runMain j s = Some s' → flow_inv s' W.
Proof.
  intros Hflow Hstep. unfold runMain in Hstep.
  destruct (main s) as [|p| |]; [| | |done].
  - destruct (forallb _ _); [|done]. injection Hstep as <-.
    by apply drain_loop_flow.
  - destruct (processEncodeQueue_return p s) as [s1|] eqn:Hret; [|done].
    cbn in Hstep. injection Hstep as <-.
    apply return_frame in Hret as [Hb Hws].
    case_decide; unfold set_main; rewrite Hws, Hb;
      by apply flow_same_workers.
  - injection Hstep as <-. by apply drain_loop_flow.
Qed.

Lemma encoder_step_flow j t s W s' :
  flow_inv s W → encoder_step j t s = Some s' → flow_inv s' W.
Proof.
  intros Hflow Hstep. destruct t as [w|]; cbn in Hstep.
  - destruct (workers s !! w) as [pc|] eqn:Hpc; [|done]. cbn in Hstep.
    destruct pc as [| |k st [p|]|]; try done.
    destruct (loadAndEncode_add j p s) as [[p' s1]|] eqn:Hadd; [|done].
    cbn in Hstep. injection Hstep as <-.
    apply loadAndEncode_add_eq in Hadd as (f & rest & Hf & -> & ->).
    eapply (flow_enter s W w); try done.
  - destruct (main s) as [|[p|]| |]; try done.
    destruct (loadAndEncode_add j p s) as [[p' s1]|] eqn:Hadd; [|done].
    cbn in Hstep. injection Hstep as <-.
    apply loadAndEncode_add_eq in Hadd as (f & rest & Hf & -> & ->).
    by apply flow_same_workers.
Qed.

Lemma run_flow j fa W tr : ∀ s s',
  flow_inv s W → run j fa tr s = Some s' → flow_inv s' W.
Proof.
  induction tr as [|e tr IH]; intros s s' Hflow Hrun; cbn in Hrun.
  - by injection Hrun as <-.
  - destruct (step j fa e s) as [s1|] eqn:Hstep; [|done]. cbn in Hrun.
    eapply IH; [|done]. destruct e as [[w|]|t]; cbn in Hstep.
    + by eapply runWorker_flow.
    + by eapply runMain_flow.
    + by eapply encoder_step_flow.
Qed.

Lemma frameAssignments_length' W N fa :
  frameAssignments W N = Some fa → length fa = W.
Proof.
  intros Hfa. destruct (decide (W = 0)) as [->|HW].
  - destruct N as [|N]; [|by vm_compute in Hfa]. by injection Hfa as <-.
  - apply (frameAssignments_length W N); [lia|done].
Qed.

Lemma launch_flow W N fa :
  frameAssignments W N = Some fa → flow_inv (launch fa) W.
Proof.
  intros Hfa. unfold launch. split; cbn [frameBuffer workers].
  - rewrite map_size_empty.
    match goal with |- context [capturing ?ws] =>
      pose proof (capturing_le ws) as H end.
    rewrite length_fmap, (frameAssignments_length' _ _ _ Hfa) in H. lia.
  - rewrite length_fmap. by eapply frameAssignments_length'.
Qed.

Lemma exec_flow j tr s :
  exec j tr = Some s → flow_inv s (numWorkers j).
Proof.
  unfold exec.
  destruct (frameAssignments _ _) as [fa|] eqn:Hfa; [|done]. cbn.
  apply run_flow. by eapply launch_flow.
Qed.

Section Final.
Context (j : job) (fa : list (list nat)).
Hypothesis Hfa : frameAssignments (numWorkers j) (totalFrames j) = Some fa.

Lemma inserted_lt s i : inserted fa (workers s) i → i < totalFrames j.
Proof.
  intros (w & frames & pc & Hw & _ & k & Hk & _).
  by destruct (owner j fa Hfa _ _ _ _ Hw Hk).
Qed.

Lemma encoded_state s d :
  invariant j fa s d → main s = Encoded →
  d = totalFrames j ∧ nextEncodeFrame s = d ∧ encodedCount s = d ∧
  length (output s) = d ∧ frameBuffer s = ∅.
Proof.
  intros [[Ho Hd Hb] Hi Hm He] Hmain.
  assert (Hnone : ∀ t, pending_of s t = None).
  { intros [w|]; cbn; [|by rewrite Hmain].
    destruct (workers s !! w) as [pc|] eqn:Hw; [|done]. cbn.
    rewrite (Hm ltac:(by rewrite Hmain) w pc Hw). done. }
  destruct Hd as [(_ & Hn & Hen & Hlen)|(t & p & Hp & _)];
    [|by rewrite Hnone in Hp].
  assert (Hle : d ≤ totalFrames j).
  { destruct (decide (d ≤ totalFrames j)) as [|Hgt]; [done|].
    assert (Hin : inserted fa (workers s) (totalFrames j))
      by (apply Hi; left; lia).
    apply inserted_lt in Hin. lia. }
  specialize (He Hmain).
  split; [lia|]. split; [done|]. split; [done|]. split; [done|].
  apply map_empty. intros i. destruct (frameBuffer s !! i) as [x|] eqn:Hx; [|done].
  assert (Hin : inserted fa (workers s) i) by (apply Hi; right; by eexists).
  apply inserted_lt in Hin. apply Hb in Hx. lia.
Qed.
End Final.

Lemma exec_assignments j tr s :
  exec j tr = Some s →
  ∃ fa, frameAssignments (numWorkers j) (totalFrames j) = Some fa.
Proof.
  unfold exec. destruct (frameAssignments _ _) as [fa|]; [|done]. by exists fa.
Qed.

Lemma exec_output j tr s :
  exec j tr = Some s → output s = sample_of j <$> seq 0 (length (output s)).
Proof.
  intros Hex. destruct (exec_assignments _ _ _ Hex) as [fa Hfa].
  destruct (exec_inv j fa Hfa _ _ Hex) as [d [[Ho _ _] _ _ _]]. done.
Qed.

Lemma exec_encoded j tr s :
  exec j tr = Some s → main s = Encoded →
  output s = sample_of j <$> seq 0 (totalFrames j) ∧
  encodedCount s = totalFrames j ∧ frameBuffer s = ∅.
Proof.
  intros Hex Hmain. destruct (exec_assignments _ _ _ Hex) as [fa Hfa].
  destruct (exec_inv j fa Hfa _ _ Hex) as [d Hinv].
  destruct (encoded_state j fa Hfa s d Hinv Hmain) as (-> & _ & He & Hl & Hb).
  split; [|done]. destruct Hinv as [[Ho _ _] _ _ _]. by rewrite Hl in Ho.
Qed.

(** ** A schedule that completes: one frame at a time *)

Lemma filter_none {A} (P : A → Prop) `{∀ x, Decision (P x)} (l : list A) :
  Forall (λ x, ¬ P x) l → filter P l = [].
Proof.
  induction 1 as [|x l Hx _ IH]; [done|].
  rewrite filter_cons. by rewrite decide_False.
Qed.

Lemma filter_all {A} (P : A → Prop) `{∀ x, Decision (P x)} (l : list A) :
  Forall P l → filter P l = l.
Proof.
  induction 1 as [|x l Hx _ IH]; [done|].
  rewrite filter_cons. rewrite decide_True by done. by rewrite IH.
Qed.

Lemma filter_agree {A} (P Q : A → Prop) `{∀ x, Decision (P x)}
    `{∀ x, Decision (Q x)} (l : list A) :
  Forall (λ x, P x ↔ Q x) l → filter P l = filter Q l.
Proof.
  induction 1 as [|x l Hx _ IH]; [done|].
  rewrite !filter_cons, IH. repeat case_decide; try done; tauto.
Qed.

Lemma position_elem l i :
  StronglySorted lt l → i ∈ l →
  l !! position i l = Some i ∧ position (S i) l = S (position i l).
Proof.
  unfold position. intros Hs. induction Hs as [|a l Hs IH Hall]; intros Hi.
  - by apply elem_of_nil in Hi.
  - rewrite !filter_cons. rewrite Forall_forall in Hall.
    apply elem_of_cons in Hi as [->|Hi].
    + rewrite decide_False by lia. rewrite decide_True by lia.
      rewrite (filter_none (λ x, x < a)).
      2:{ apply Forall_forall. intros x Hx. apply Hall in Hx. lia. }
      rewrite (filter_none (λ x, x < S a)).
      2:{ apply Forall_forall. intros x Hx. apply Hall in Hx. lia. }
      done.
    + pose proof (Hall _ Hi). rewrite !decide_True by lia.
      destruct (IH Hi) as [Hl Hp]. cbn [length]. split; [done|]. by rewrite Hp.
Qed.

Lemma position_not_elem l i : i ∉ l → position (S i) l = position i l.
Proof.
  intros Hi. unfold position. f_equal. apply filter_agree.
  apply Forall_forall. intros x Hx.
  assert (x ≠ i) by (intros ->; done). lia.
Qed.

Lemma position_all l N : Forall (λ x, x < N) l → position N l = length l.
Proof. intros H. unfold position. by rewrite filter_all. Qed.

Lemma run_app j fa tr1 tr2 s :
  run j fa (tr1 ++ tr2) s = s' ← run j fa tr1 s; run j fa tr2 s'.
Proof.
  revert s. induction tr1 as [|e tr1 IH]; intros s; cbn; [done|].
  destruct (step j fa e s); cbn; [apply IH|done].
Qed.

Lemma collect_single fps room i x :
  collect fps (S room) (<[i := x]> ∅) i = ([Frame x (timestamp_of fps i)], ∅, S i).
Proof.
  change (collect fps (S room) (<[i := x]> ∅) i) with
    (match (<[i := x]> (∅ : gmap nat string)) !! i with
     | None => ([], <[i := x]> ∅, i)
     | Some d =>
         let '(batch, buf', la') :=
           collect fps room (delete i (<[i := x]> ∅)) (S i) in
         (Frame d (timestamp_of fps i) :: batch, buf', la')
     end).
  rewrite lookup_insert_eq.
  rewrite delete_insert_eq, delete_empty.
  rewrite collect_blocked by apply lookup_empty. done.
Qed.

Section Steps.
Context (j : job) (fa : list (list nat)).

Lemma resume_capturing w s frames k idx :
  fa !! w = Some frames → workers s !! w = Some (Capturing k) →
  frames !! k = Some idx →
  step j fa (Resume (Worker w)) s =
    Some (let '(s2, p) :=
            processEncodeQueue_call j
              (frameBuffer_set idx
                 (captureFrameJPEG j (S w) (timestamp_of (fps j) idx)) s) in
          set_worker w (Draining k AfterInsert p) s2).
Proof.
  intros Hw Hpc Hk. cbn [step]. unfold runWorker.
  rewrite Hw. cbn [mbind option_bind]. rewrite Hpc. cbn [mbind option_bind].
  rewrite Hk. cbn [mbind option_bind].
  by destruct (processEncodeQueue_call _ _).
Qed.

Lemma encoder_adds w s k st la n f rest :
  workers s !! w = Some (Draining k st (Some (Pending la n (f :: rest)))) →
  step j fa (EncoderAdd (Worker w)) s =
    Some (set_worker w (Draining k st (Some (Pending la n rest)))
            (set_output
               (output s ++ [Sample (dataUrl f) (timestamp f) (1 / fps j)%Q])
               s)).
Proof. intros Hpc. cbn [step encoder_step]. rewrite Hpc. done. Qed.

Lemma resume_returned w s frames k st la n :
  fa !! w = Some frames →
  workers s !! w = Some (Draining k st (Some (Pending la n []))) →
  step j fa (Resume (Worker w)) s =
    Some (set_worker w
            match st with
            | InWaitLoop => wait_loop k (advance la n s)
            | AfterInsert => iteration frames (S k) (advance la n s)
            end (advance la n s)).
Proof.
  intros Hw Hpc. cbn [step]. unfold runWorker.
  rewrite Hw. cbn [mbind option_bind]. rewrite Hpc. done.
Qed.
End Steps.

Section Schedule.
Context (j : job) (fa : list (list nat)).
Hypothesis Hfa : frameAssignments (numWorkers j) (totalFrames j) = Some fa.
Hypothesis HW : 0 < numWorkers j.

Lemma pc_at_0 frames :
  iteration frames 0 (State ∅ 0 0 [] [] AwaitWorkers) = pc_at 0 frames.
Proof.
  rewrite launch_worker. unfold pc_at.
  assert (position 0 frames = 0) as ->; [|done].
  unfold position. rewrite filter_none; [done|].
  apply Forall_forall. intros; lia.
Qed.

Lemma launch_at_0 : launch fa = at_frame j fa 0.
Proof.
  unfold launch, at_frame. f_equal. apply list_fmap_ext.
  intros _ frames _. apply pc_at_0.
Qed.

Lemma serve_frame i :
  i < totalFrames j →
  run j fa (serve (i mod numWorkers j)) (at_frame j fa i)
    = Some (at_frame j fa (S i)).
Proof.
  intros Hi. set (w := i mod numWorkers j).
  destruct (frameAssignments_cover (numWorkers j) (totalFrames j) HW)
    as (fa' & Hfa' & Hcover).
  assert (fa' = fa) as -> by congruence.
  destruct (Hcover i Hi) as (frames & Hw & Hin). fold w in Hw.
  pose proof (assigned_sorted _ _ _ _ _ Hfa Hw) as Hsorted.
  destruct (position_elem frames i Hsorted Hin) as [Hk HSk].
  set (k := position i frames) in *.
  set (url := captureFrameJPEG j (S w) (timestamp_of (fps j) i)).
  assert (Hpc : (pc_at i <$> fa) !! w = Some (Capturing k)).
  { rewrite list_lookup_fmap, Hw. cbn. unfold pc_at. fold k. by rewrite Hk. }
  unfold serve. cbn [run].
  (* the capture returns *)
  rewrite (resume_capturing j fa w (at_frame j fa i) frames k i Hw Hpc Hk).
  unfold processEncodeQueue_call, frameBuffer_set.
  cbn [frameBuffer nextEncodeFrame set_buffer at_frame].
  unfold ENCODE_BATCH_SIZE. rewrite collect_single.
  rewrite decide_True by (cbn; lia).
  cbn [mbind option_bind length].
  (* the encoder page adds the frame *)
  erewrite encoder_adds.
  2:{ cbn [set_worker workers].
      apply list_lookup_insert_eq. by eapply lookup_lt_Some. }
  cbn [mbind option_bind].
  (* the worker resumes *)
  erewrite resume_returned; [|exact Hw|].
  2:{ cbn [set_worker set_output workers].
      apply list_lookup_insert_eq. rewrite length_insert.
      by eapply lookup_lt_Some. }
  cbn [mbind option_bind run].
  unfold set_worker, set_output, advance, set_buffer, at_frame.
  cbn [frameBuffer nextEncodeFrame encodedCount output workers main
       dataUrl timestamp].
  rewrite !list_insert_insert_eq.
  f_equal. f_equal.
  - lia.
  - rewrite seq_S, fmap_app. done.
  - apply list_eq. intros w'. rewrite list_lookup_fmap.
    destruct (decide (w' = w)) as [->|Hne].
    + rewrite list_lookup_insert_eq
        by (rewrite length_fmap; by eapply lookup_lt_Some).
      rewrite Hw. cbn. f_equal. unfold iteration, pc_at.
      rewrite HSk. fold k. destruct (frames !! S k); [|done].
      rewrite decide_False; [done|]. cbn. rewrite map_size_empty.
      unfold MAX_BUFFERED_FRAMES. lia.
    + rewrite list_lookup_insert_ne by done. rewrite list_lookup_fmap.
      destruct (fa !! w') as [frames'|] eqn:Hw'; [|done]. cbn. f_equal.
      unfold pc_at. rewrite position_not_elem; [done|].
      intros Hin'. apply (assigned_iff _ _ _ _ _ _ Hfa Hw') in Hin'.
      subst w. lia.
Qed.

Lemma serve_frames n : ∀ i,
  i + n ≤ totalFrames j →
  run j fa (concat ((λ i, serve (i mod numWorkers j)) <$> seq i n))
      (at_frame j fa i) = Some (at_frame j fa (i + n)).
Proof.
  induction n as [|n IH]; intros i Hle.
  - cbn. by rewrite Nat.add_0_r.
  - cbn [seq fmap list_fmap concat]. rewrite run_app.
    rewrite serve_frame by lia. cbn [mbind option_bind].
    rewrite IH by lia. f_equal. f_equal. lia.
Qed.

Lemma all_done :
  forallb is_finished (pc_at (totalFrames j) <$> fa) = true.
Proof.
  apply forallb_forall. intros pc Hpc.
  apply list_elem_of_In, list_elem_of_fmap in Hpc as (frames & -> & Hin).
  apply list_elem_of_lookup in Hin as [w Hw].
  unfold pc_at. rewrite position_all.
  - by rewrite (proj2 (lookup_ge_None frames (length frames))).
  - apply Forall_forall. intros x Hx.
    by apply (assigned_iff _ _ _ _ _ _ Hfa Hw) in Hx as [? _].
Qed.

Lemma in_frame_order_completes :
  ∃ s, exec j (in_frame_order (numWorkers j) (totalFrames j)) = Some s ∧
       main s = Encoded.
Proof.
  unfold exec, in_frame_order. rewrite Hfa. cbn [mbind option_bind].
  rewrite run_app, launch_at_0.
  rewrite (serve_frames (totalFrames j) 0) by lia.
  cbn [mbind option_bind run step plus]. unfold runMain.
  cbn [main at_frame workers]. rewrite all_done.
  unfold drain_loop, at_frame. cbn [encodedCount].
  rewrite decide_False by lia.
  eexists. split; [done|done].
Qed.
End Schedule.

Lemma completes j :
  0 < numWorkers j → ∃ tr s, exec j tr = Some s ∧ main s = Encoded.
Proof.
  intros HW.
  destruct (frameAssignments_cover (numWorkers j) (totalFrames j) HW)
    as (fa & Hfa & _).
  destruct (in_frame_order_completes j fa Hfa HW) as (s & Hs & Hm).
  by exists (in_frame_order (numWorkers j) (totalFrames j)), s.
Qed.

(** C1.  In every state the orchestration can reach, under any
    interleaving of the workers, the main task and the encoder page: the
    encoder output so far is exactly the frames 0, 1, 2, ... in this order,
    each once; a call of [processEncodeQueue] collects the contiguous run of
    frames that starts at [nextEncodeFrame], at most [ENCODE_BATCH_SIZE] of
    them, and removes exactly these from the buffer; a non-empty batch
    continues the output where it ends; and when the frame at
    [nextEncodeFrame] is absent the batch is empty and the buffer is left
    as it is, whatever later frames it holds. *)
Theorem processEncodeQueue_in_order (j : job) (tr : list event) (s : state)
    (batch : list frame) (buf' : gmap nat string) (la : nat) :
  exec j tr = Some s →
  collect (fps j) ENCODE_BATCH_SIZE (frameBuffer s) (nextEncodeFrame s)
    = (batch, buf', la) →
  output s = sample_of j <$> seq 0 (length (output s)) ∧
  batch = frame_of j <$> seq (nextEncodeFrame s) (length batch) ∧
  length batch ≤ ENCODE_BATCH_SIZE ∧
  la = nextEncodeFrame s + length batch ∧
  (∀ i, buf' !! i = if decide (nextEncodeFrame s ≤ i < la)
                    then None else frameBuffer s !! i) ∧
  (0 < length batch → length (output s) = nextEncodeFrame s) ∧
  (frameBuffer s !! nextEncodeFrame s = None →
     batch = [] ∧ buf' = frameBuffer s ∧ la = nextEncodeFrame s).
Proof.
  intros Hex Hcol. destruct (exec_assignments _ _ _ Hex) as [fa Hfa].
  destruct (exec_inv j fa Hfa _ _ Hex) as [d [[Ho Hd Hb] _ _ _]].
  pose proof (collect_frames j _ _ _ _ _ _ (λ i x H, proj2 (Hb i x H)) Hcol)
    as Hfr.
  pose proof (collect_spec _ _ _ _ _ _ _ Hcol) as (Hla & Hroom & Hbuf & _ & _).
  split; [done|]. split; [done|]. split; [done|]. split; [done|].
  split; [done|]. split.
  - intros Hpos.
    destruct Hd as [(_ & -> & _ & ->)|(t & p & _ & _ & Hl & Hn & Hp & _)];
      [done|].
    assert (Hhead : frameBuffer s !! nextEncodeFrame s = None).
    { destruct (frameBuffer s !! nextEncodeFrame s) as [x|] eqn:Hx; [|done].
      apply Hb in Hx. lia. }
    rewrite collect_blocked in Hcol by done. injection Hcol as <- _ _.
    cbn in Hpos. lia.
  - intros Hhead. rewrite collect_blocked in Hcol by done.
    by injection Hcol as <- <- <-.
Qed.

(** Two workers, six frames: worker 1 has delivered frame 1, frame 0 is
    still being captured.  The drain returns nothing and frame 1 stays. *)
Lemma processEncodeQueue_in_order_witness :
  ∃ s batch buf' la,
    exec (Job 2 6 30 numbered) [Resume (Worker 1)] = Some s ∧
    collect 30 ENCODE_BATCH_SIZE (frameBuffer s) (nextEncodeFrame s)
      = (batch, buf', la) ∧
    is_Some (frameBuffer s !! 1) ∧
    output s = sample_of (Job 2 6 30 numbered) <$> seq 0 (length (output s)) ∧
    batch = frame_of (Job 2 6 30 numbered)
              <$> seq (nextEncodeFrame s) (length batch) ∧
    length batch ≤ ENCODE_BATCH_SIZE ∧
    la = nextEncodeFrame s + length batch ∧
    (∀ i, buf' !! i = if decide (nextEncodeFrame s ≤ i < la)
                      then None else frameBuffer s !! i) ∧
    (0 < length batch → length (output s) = nextEncodeFrame s) ∧
    (frameBuffer s !! nextEncodeFrame s = None →
       batch = [] ∧ buf' = frameBuffer s ∧ la = nextEncodeFrame s).
Proof.
  eexists _, _, _, _.
  split; [vm_compute; reflexivity|].
  split; [vm_compute; reflexivity|].
  split; [by eexists|].
  apply (processEncodeQueue_in_order (Job 2 6 30 numbered) [Resume (Worker 1)]);
    vm_compute; reflexivity.
Defined.

(** C2, as stated, fails.  Two workers, 700 frames, worker 0 still
    capturing frame 0.  With 300 frames buffered (more than
    [MAX_BUFFERED_FRAMES - ENCODE_BATCH_SIZE]) worker 1 is not made to
    wait: it is capturing its next frame.  One insertion later the buffer
    holds 301 frames, more than [MAX_BUFFERED_FRAMES], and only then does
    worker 1 wait. *)
Lemma flow_control_overshoots :
  (λ s, (size (frameBuffer s), workers s))
    <$> exec (Job 2 700 30 numbered) (lagging_worker 300)
    = Some (300, [Capturing 0; Capturing 300]) ∧
  (λ s, (size (frameBuffer s), workers s))
    <$> exec (Job 2 700 30 numbered) (lagging_worker 301)
    = Some (301, [Capturing 0; Sleeping 301]) ∧
  MAX_BUFFERED_FRAMES - ENCODE_BATCH_SIZE < 300 ∧
  MAX_BUFFERED_FRAMES < 301.
Proof.
  split; [vm_compute; reflexivity|].
  split; [vm_compute; reflexivity|].
  unfold MAX_BUFFERED_FRAMES, ENCODE_BATCH_SIZE. lia.
Qed.

(** C2, amended.  In every reachable state the buffer occupancy plus the
    number of captures in flight is at most [MAX_BUFFERED_FRAMES] plus the
    number of workers.  At the head of its loop a worker waits exactly
    when the occupancy exceeds [MAX_BUFFERED_FRAMES]; once waiting it
    stays in the wait loop exactly as long as the occupancy exceeds
    [MAX_BUFFERED_FRAMES - ENCODE_BATCH_SIZE]; and each time its timer
    fires it calls [processEncodeQueue] before it looks again. *)
Theorem flow_control_bound (j : job) (tr : list event) (s : state) :
  exec j tr = Some s →
  size (frameBuffer s) + capturing (workers s)
    ≤ MAX_BUFFERED_FRAMES + numWorkers j ∧
  (∀ frames k, is_Some (frames !! k) →
     iteration frames k s =
       if decide (MAX_BUFFERED_FRAMES < size (frameBuffer s))
       then Sleeping k else Capturing k) ∧
  (∀ k, wait_loop k s =
       if decide (MAX_BUFFERED_FRAMES - ENCODE_BATCH_SIZE
                    < size (frameBuffer s))
       then Sleeping k else Capturing k) ∧
  (∀ fa w k, workers s !! w = Some (Sleeping k) → is_Some (fa !! w) →
     step j fa (Resume (Worker w)) s =
       Some (let '(s1, p) := processEncodeQueue_call j s in
             set_worker w (Draining k InWaitLoop p) s1)).
Proof.
  intros Hex. split; [by destruct (exec_flow _ _ _ Hex)|].
  split; [|split].
  - intros frames k [x Hx]. unfold iteration, wait_loop. rewrite Hx.
    repeat case_decide; try done.
    unfold MAX_BUFFERED_FRAMES, ENCODE_BATCH_SIZE in *. lia.
  - done.
  - intros fa w k Hpc [frames Hw]. cbn [step]. unfold runWorker.
    rewrite Hw. cbn [mbind option_bind]. rewrite Hpc. cbn [mbind option_bind].
    by destruct (processEncodeQueue_call j s).
Qed.

(** Two workers, six frames, worker 1 two frames ahead. *)
Lemma flow_control_bound_witness :
  ∃ s,
    exec (Job 2 6 30 numbered) (lagging_worker 2) = Some s ∧
    size (frameBuffer s) = 2 ∧ capturing (workers s) = 2 ∧
    size (frameBuffer s) + capturing (workers s) ≤ MAX_BUFFERED_FRAMES + 2.
Proof.
  eexists.
  split; [vm_compute; reflexivity|].
  split; [vm_compute; reflexivity|].
  split; [vm_compute; reflexivity|].
  apply (flow_control_bound (Job 2 6 30 numbered) (lagging_worker 2)).
  vm_compute; reflexivity.
Defined.

Lemma timestamp_of_30 i : (timestamp_of 30 i == Z.of_nat i # 30)%Q.
Proof. unfold timestamp_of, Qdiv, Qmult, Qinv, inject_Z, Qeq. cbn. lia. Qed.

(** The product is rounded before [Math.ceil] is taken: 0.28 s at 25 fps
    are 8 frames and 8.3 s at 30 fps are 250, where the exact products
    are 7 and 249. *)
Lemma frame_count_rounds :
  frame_count (28 / 100) 25 = Some 8 ∧
  frame_count (83 / 10) 30 = Some 250 ∧
  frame_count (5 / 2) 30 = Some 75 ∧
  frame_count 0 30 = Some 0 ∧
  frame_count infinity 30 = None.
Proof. repeat split; vm_compute; reflexivity. Qed.

(** C5, as stated, fails.  [frameBuffer.set] on an index that is present
    is accepted and replaces the payload: the buffer keeps one entry, with
    the second payload; and a worker that delivers frame 0 into a buffer
    that already holds a frame 0 sends its own capture to the encoder. *)
Lemma duplicate_insert_overwrites :
  frameBuffer
    (frameBuffer_set 3 "second"
       (frameBuffer_set 3 "first" (State ∅ 0 0 [] [] AwaitWorkers))) !! 3
    = Some "second" ∧
  size (frameBuffer
          (frameBuffer_set 3 "second"
             (frameBuffer_set 3 "first" (State ∅ 0 0 [] [] AwaitWorkers))))
    = 1 ∧
  (λ s, todo <$> pending_of s (Worker 0))
    <$> step (Job 1 1 30 numbered) [[0]] (Resume (Worker 0))
          (State {[0 := "stale"]} 0 0 [] [Capturing 0] AwaitWorkers)
    = Some (Some [Frame "0" (0 # 30)]).
Proof.
  split; [vm_compute; reflexivity|].
  split; [vm_compute; reflexivity|].
  vm_compute; reflexivity.
Qed.

(** C5, amended.  [frameBuffer.set] never rejects: the buffer afterwards
    maps the index to the new payload, whether it was present or not.
    The orchestration never relies on it: whenever a worker is about to
    deliver a frame, in any reachable state, that index is absent from
    the buffer and has not been delivered before, and the delivery goes
    through. *)
Theorem insert_is_fresh (j : job) (tr : list event) (s : state)
    (fa : list (list nat)) (w k idx : nat) (frames : list nat) :
  exec j tr = Some s →
  frameAssignments (numWorkers j) (totalFrames j) = Some fa →
  fa !! w = Some frames →
  workers s !! w = Some (Capturing k) →
  frames !! k = Some idx →
  frameBuffer s !! idx = None ∧
  ¬ inserted fa (workers s) idx ∧
  (∃ s', step j fa (Resume (Worker w)) s = Some s' ∧
         inserted fa (workers s') idx) ∧
  (∀ d s0, frameBuffer (frameBuffer_set idx d s0) !! idx = Some d).
Proof.
  intros Hex Hfa Hw Hpc Hk.
  destruct (exec_inv j fa Hfa _ _ Hex) as [d Hinv].
  assert (Hfresh : ¬ inserted fa (workers s) idx)
    by (by eapply (next_frame_fresh j fa Hfa)).
  split; [|split; [done|split]].
  - destruct (frameBuffer s !! idx) eqn:Hx; [|done]. exfalso.
    apply Hfresh. apply (inv_inserted _ _ _ _ Hinv). right. by eexists.
  - rewrite (resume_capturing j fa w s frames k idx Hw Hpc Hk).
    destruct (processEncodeQueue_call _ _) as [s2 p] eqn:Hcall.
    eexists. split; [done|].
    apply size_call in Hcall as [_ Hws]. cbn [set_worker workers].
    rewrite Hws. cbn [frameBuffer_set set_buffer workers].
    exists w, frames, (Draining k AfterInsert p).
    split; [done|]. split.
    + apply list_lookup_insert_eq. by eapply lookup_lt_Some.
    + exists k. split; [done|]. cbn. lia.
  - intros d0 s0. cbn. apply lookup_insert_eq.
Qed.

(** Two workers, six frames: worker 0 is about to deliver frame 0 after
    worker 1 has delivered frame 1. *)
Lemma insert_is_fresh_witness :
  ∃ s,
    exec (Job 2 6 30 numbered) [Resume (Worker 1)] = Some s ∧
    frameBuffer s !! 0 = None ∧
    ¬ inserted [[0; 2; 4]; [1; 3; 5]] (workers s) 0 ∧
    (∃ s', step (Job 2 6 30 numbered) [[0; 2; 4]; [1; 3; 5]]
             (Resume (Worker 0)) s = Some s' ∧
           inserted [[0; 2; 4]; [1; 3; 5]] (workers s') 0) ∧
    (∀ d s0, frameBuffer (frameBuffer_set 0 d s0) !! 0 = Some d).
Proof.
  eexists. split; [vm_compute; reflexivity|].
  apply (insert_is_fresh (Job 2 6 30 numbered) [Resume (Worker 1)] _
           [[0; 2; 4]; [1; 3; 5]] 0 0 0 [0; 2; 4]);
    vm_compute; reflexivity.
Defined.

(** Runs that reach the end of encoding agree, whatever the worker count.
    Let the capture of a timestamp be the same on every page (the
    composition renders deterministically).  Then for every frame count,
    frame rate and worker count [W >= 1]: the job with one worker and the
    job with [W] workers can both run to the end of encoding, and any two
    runs that do, under any interleavings, give the encoder the same
    sequence of samples (image, timestamp, duration). *)
Theorem worker_count_irrelevant (N : nat) (fps : Q)
    (capture : nat → Q → string) (W : nat) :
  0 < W →
  (∀ p q t, capture p t = capture q t) →
  (∃ tr s, exec (Job 1 N fps capture) tr = Some s ∧ main s = Encoded) ∧
  (∃ tr s, exec (Job W N fps capture) tr = Some s ∧ main s = Encoded) ∧
  (∀ tr1 s1 tr s,
     exec (Job 1 N fps capture) tr1 = Some s1 → main s1 = Encoded →
     exec (Job W N fps capture) tr = Some s → main s = Encoded →
     output s = output s1).
Proof.
  intros HW Hdet.
  split; [apply completes; cbn; lia|].
  split; [by apply completes|].
  intros tr1 s1 tr s Hex1 Hm1 Hex Hm.
  destruct (exec_encoded _ _ _ Hex1 Hm1) as (-> & _ & _).
  destruct (exec_encoded _ _ _ Hex Hm) as (-> & _ & _).
  cbn [totalFrames]. apply list_fmap_ext. intros _ i _.
  unfold sample_of, frame_of. cbn. f_equal. apply Hdet.
Qed.

(** One worker in frame order against three workers out of order, on
    seven frames. *)
Lemma worker_count_irrelevant_witness :
  ∃ s1 s3,
    exec (Job 1 7 30 numbered) (in_frame_order 1 7) = Some s1 ∧
    main s1 = Encoded ∧
    exec (Job 3 7 30 numbered) out_of_order = Some s3 ∧
    main s3 = Encoded ∧
    output s3 = output s1.
Proof.
  eexists _, _.
  split; [vm_compute; reflexivity|]. split; [reflexivity|].
  split; [vm_compute; reflexivity|]. split; [reflexivity|].
  apply (proj2 (proj2 (worker_count_irrelevant 7 30 numbered 3
                         ltac:(lia) ltac:(reflexivity)))
           (in_frame_order 1 7) _ out_of_order);
    (vm_compute; reflexivity).
Defined.

End PipelineProps.

(** ** Liveness of the orchestration *)

Module LivenessProps.
Import Scheduler Pipeline SchedulerProps PipelineProps Liveness.

Local Arguments collect : simpl never.
Local Arguments processEncodeQueue_call : simpl never.

(** *** One batch at a time *)

Lemma set_buffer_id s : set_buffer (frameBuffer s) s = s.
Proof. by destruct s. Qed.

Lemma processEncodeQueue_call_blocked j s :
  frameBuffer s !! nextEncodeFrame s = None →
  processEncodeQueue_call j s = (s, None).
Proof.
  intros H. unfold processEncodeQueue_call. rewrite collect_blocked by done.
  cbn. by rewrite set_buffer_id.
Qed.

(** X12.  In every state the orchestration can reach, at most one task
    has a batch in flight in the encoder page.  While one is in flight
    [nextEncodeFrame] and [encodedCount] still stand at its first frame,
    the encoder page has added a prefix of it and has exactly the rest
    left to add, and a call of [processEncodeQueue] by any task collects
    nothing and leaves the state as it is: batches never overlap. *)
Theorem one_batch_in_flight (j : job) (tr : list event) (s : state)
    (t : task) (p : pending) :
  exec j tr = Some s → pending_of s t = Some p →
  (∀ t' p', pending_of s t' = Some p' → t' = t) ∧
  lookahead p = nextEncodeFrame s + batch_length p ∧
  0 < batch_length p ∧
  encodedCount s = nextEncodeFrame s ∧
  nextEncodeFrame s ≤ length (output s) ≤ lookahead p ∧
  todo p = frame_of j <$> seq (length (output s))
                              (lookahead p - length (output s)) ∧
  processEncodeQueue_call j s = (s, None).
Proof.
  intros Hex Hp. destruct (exec_assignments _ _ _ Hex) as [fa Hfa].
  destruct (exec_inv j fa Hfa _ _ Hex) as [d [[Ho Hd Hb] _ _ _]].
  destruct Hd as [(Hnone & _)|(t0 & p0 & Hp0 & Hothers & Hla & Hn & Hpos & He & Hout & Htodo)].
  { by rewrite Hnone in Hp. }
  assert (t = t0) as ->.
  { destruct (decide (t = t0)) as [|Hne]; [done|].
    by rewrite (Hothers t Hne) in Hp. }
  assert (p0 = p) as -> by congruence.
  split.
  { intros t' p' Hp'. destruct (decide (t' = t0)) as [|Hne]; [done|].
    by rewrite (Hothers t' Hne) in Hp'. }
  split; [lia|]. split; [done|]. split; [done|]. split; [lia|].
  split; [by rewrite Hla|].
  apply processEncodeQueue_call_blocked.
  destruct (frameBuffer s !! nextEncodeFrame s) as [x|] eqn:Hx; [|done].
  apply Hb in Hx. lia.
Qed.

(** Two workers, six frames: worker 0 has delivered frame 0 and its batch
    is with the encoder page. *)
Lemma one_batch_in_flight_witness :
  ∃ s p,
    exec (Job 2 6 30 numbered) [Resume (Worker 0)] = Some s ∧
    pending_of s (Worker 0) = Some p ∧
    batch_length p = 1 ∧
    (∀ t' p', pending_of s t' = Some p' → t' = Worker 0) ∧
    processEncodeQueue_call (Job 2 6 30 numbered) s = (s, None).
Proof.
  destruct (exec (Job 2 6 30 numbered) [Resume (Worker 0)]) as [s|] eqn:Hex;
    [|vm_compute in Hex; discriminate].
  pose proof Hex as Hs. vm_compute in Hs. injection Hs as <-.
  eexists _, _. split; [reflexivity|]. split; [reflexivity|].
  split; [reflexivity|].
  destruct (one_batch_in_flight _ _ _ (Worker 0) _ Hex eq_refl)
    as (H1 & _ & _ & _ & _ & _ & H2).
  split; [exact H1|exact H2].
Defined.

(** *** No deadlock *)

Lemma workers_call j s :
  workers (processEncodeQueue_call j s).1 = workers s.
Proof.
  unfold processEncodeQueue_call.
  by destruct (collect _ _ _ _) as [[batch buf'] la].
Qed.

Lemma workers_return p s s1 :
  processEncodeQueue_return p s = Some s1 → workers s1 = workers s.
Proof.
  destruct p as [[la n [|f rest]]|]; cbn; intros [= <-]; done.
Qed.

Lemma well_parked_set fa s s1 w frames pc :
  well_parked fa s → workers s1 = workers s → fa !! w = Some frames →
  parked_in_range frames pc →
  well_parked fa (set_worker w pc s1).
Proof.
  intros Hwp Hws Hw Hpc. unfold well_parked. cbn. rewrite Hws.
  rewrite <- (list_insert_id fa w frames Hw). by apply Forall2_insert.
Qed.

Lemma parked_wait_loop frames k s :
  k < length frames → parked_in_range frames (wait_loop k s).
Proof. intros Hk. unfold wait_loop. by case_decide. Qed.

Lemma parked_iteration frames k s : parked_in_range frames (iteration frames k s).
Proof.
  unfold iteration. destruct (frames !! k) eqn:Hk; [|done].
  apply lookup_lt_Some in Hk. case_decide; [by apply parked_wait_loop|done].
Qed.

Lemma runWorker_parked j fa w s s' :
  well_parked fa s → runWorker j fa w s = Some s' → well_parked fa s'.
Proof.
  intros Hwp Hrun. unfold runWorker in Hrun.
  destruct (fa !! w) as [frames|] eqn:Hw; [|done]. cbn in Hrun.
  destruct (workers s !! w) as [pc|] eqn:Hpc; [|done]. cbn in Hrun.
  pose proof (Forall2_lookup_lr _ _ _ _ _ _ Hwp Hw Hpc) as Hin.
  destruct pc as [k|k|k st p|]; [| | |done].
  - destruct (frames !! k) as [idx|] eqn:Hk; [|done]. cbn in Hrun.
    pose proof (workers_call j (frameBuffer_set idx
      (captureFrameJPEG j (S w) (timestamp_of (fps j) idx)) s)) as Hws.
    destruct (processEncodeQueue_call j _) as [s2 p]. injection Hrun as <-.
    by apply (well_parked_set fa s _ _ frames).
  - pose proof (workers_call j s) as Hws.
    destruct (processEncodeQueue_call j s) as [s1 p]. injection Hrun as <-.
    by apply (well_parked_set fa s _ _ frames).
  - destruct (processEncodeQueue_return p s) as [s1|] eqn:Hret; [|done].
    injection Hrun as <-. apply workers_return in Hret.
    apply (well_parked_set fa s _ _ frames); [done..|].
    destruct st; [by apply parked_wait_loop|apply parked_iteration].
Qed.

Lemma drain_loop_workers j s : workers (drain_loop j s) = workers s.
Proof.
  unfold drain_loop. case_decide; [|done].
  pose proof (workers_call j s) as Hws.
  by destruct (processEncodeQueue_call j s).
Qed.

Lemma runMain_parked j fa s s' :
  well_parked fa s → runMain j s = Some s' → well_parked fa s'.
Proof.
  intros Hwp Hrun. unfold well_parked. unfold runMain in Hrun.
  destruct (main s) as [|p| |].
  - destruct (forallb _ _); [|done]. injection Hrun as <-.
    by rewrite drain_loop_workers.
  - destruct (processEncodeQueue_return p s) as [s1|] eqn:Hret; [|done].
    injection Hrun as <-. apply workers_return in Hret.
    case_decide; cbn; by rewrite Hret.
  - injection Hrun as <-. by rewrite drain_loop_workers.
  - done.
Qed.

Lemma encoder_step_parked j fa t s s' :
  well_parked fa s → encoder_step j t s = Some s' → well_parked fa s'.
Proof.
  intros Hwp Hstep. unfold encoder_step in Hstep. destruct t as [w|].
  - destruct (workers s !! w) as [pc|] eqn:Hpc; [|done]. cbn in Hstep.
    destruct pc as [| |k st [p|]|]; try done.
    unfold loadAndEncode_add in Hstep.
    destruct (todo p) as [|f rest]; [done|]. cbn in Hstep.
    injection Hstep as <-.
    destruct (Forall2_lookup_r _ _ _ _ _ Hwp Hpc) as (frames & Hw & Hin).
    by apply (well_parked_set fa s _ _ frames).
  - destruct (main s) as [|[p|]| |]; try done.
    unfold loadAndEncode_add in Hstep.
    destruct (todo p) as [|f rest]; [done|]. cbn in Hstep.
    by injection Hstep as <-.
Qed.

Lemma run_parked j fa tr : ∀ s s',
  well_parked fa s → run j fa tr s = Some s' → well_parked fa s'.
Proof.
  induction tr as [|e tr IH]; intros s s' Hwp Hrun; cbn in Hrun.
  - by injection Hrun as <-.
  - destruct (step j fa e s) as [s1|] eqn:Hstep; [|done]. cbn in Hrun.
    apply (IH s1); [|done]. destruct e as [[w|]|t]; cbn in Hstep.
    + by eapply runWorker_parked.
    + by eapply runMain_parked.
    + by eapply encoder_step_parked.
Qed.

Lemma launch_parked fa : well_parked fa (launch fa).
Proof.
  unfold well_parked, launch. cbn. apply Forall2_fmap_r, Forall_Forall2_diag.
  apply Forall_forall. intros frames _. apply parked_iteration.
Qed.

(** A task with a batch in flight can be resumed, or the encoder page can
    add its next frame. *)
Lemma pending_enabled j p s :
  is_Some (processEncodeQueue_return p s) ∨
  ∃ p0, p = Some p0 ∧ is_Some (loadAndEncode_add j p0 s).
Proof.
  destruct p as [[la n [|f rest]]|]; cbn.
  - left. by eexists.
  - right. eexists. split; [done|]. unfold loadAndEncode_add. cbn. by eexists.
  - left. by eexists.
Qed.

Lemma enabled j fa s :
  well_parked fa s → main s ≠ Encoded → ∃ e s', step j fa e s = Some s'.
Proof.
  intros Hwp Hmain.
  destruct (forallb is_finished (workers s)) eqn:Hall.
  - destruct (main s) as [|p| |] eqn:Hm; [| | |done].
    + exists (Resume Main). cbn. unfold runMain. rewrite Hm, Hall. by eexists.
    + destruct (pending_enabled j p s) as [[s1 Hs1]|(p0 & -> & [[p1 s1] Hs1])].
      * exists (Resume Main). cbn. unfold runMain. rewrite Hm, Hs1. cbn.
        by eexists.
      * exists (EncoderAdd Main). cbn. rewrite Hm, Hs1. cbn. by eexists.
    + exists (Resume Main). cbn. unfold runMain. rewrite Hm. by eexists.
  - apply not_true_iff_false in Hall. rewrite forallb_forall in Hall.
    assert (∃ w pc, workers s !! w = Some pc ∧ is_finished pc = false)
      as (w & pc & Hpc & Hnf).
    { destruct (decide (Forall (λ pc, is_finished pc = true) (workers s)))
        as [Hf|Hf].
      - destruct Hall. intros x Hx. apply list_elem_of_In in Hx.
        by eapply Forall_forall in Hf.
      - apply not_Forall_Exists in Hf; [|apply _].
        apply Exists_exists in Hf as (pc & Hin & Hnf).
        apply list_elem_of_lookup in Hin as [w Hw].
        exists w, pc. split; [done|]. by apply not_true_is_false. }
    destruct (Forall2_lookup_r _ _ _ _ _ Hwp Hpc) as (frames & Hw & Hin).
    destruct pc as [k|k|k st p|]; [| | |done].
    + exists (Resume (Worker w)). cbn. unfold runWorker. rewrite Hw, Hpc. cbn.
      cbn in Hin. apply lookup_lt_is_Some_2 in Hin as [idx Hk]. rewrite Hk. cbn.
      destruct (processEncodeQueue_call j _). by eexists.
    + exists (Resume (Worker w)). cbn. unfold runWorker. rewrite Hw, Hpc. cbn.
      destruct (processEncodeQueue_call j _). by eexists.
    + destruct (pending_enabled j p s) as [[s1 Hs1]|(p0 & -> & [[p1 s1] Hs1])].
      * exists (Resume (Worker w)). cbn. unfold runWorker.
        rewrite Hw, Hpc. cbn. rewrite Hs1. cbn. by eexists.
      * exists (EncoderAdd (Worker w)). cbn. rewrite Hpc. cbn. rewrite Hs1.
        cbn. by eexists.
Qed.

(** X13.  The orchestration cannot deadlock: in every reachable state in
    which the main loop has not ended, some parked task can be resumed or
    the encoder page can add a frame. *)
Theorem never_stuck (j : job) (tr : list event) (s : state) :
  exec j tr = Some s → main s ≠ Encoded →
  ∃ e s', exec j (tr ++ [e]) = Some s'.
Proof.
  intros Hex Hmain. destruct (exec_assignments _ _ _ Hex) as [fa Hfa].
  pose proof (exec_fa j fa Hfa _ _ Hex) as Hrun.
  pose proof (run_parked j fa tr _ _ (launch_parked fa) Hrun) as Hwp.
  destruct (enabled j fa s Hwp Hmain) as (e & s' & Hstep).
  exists e, s'. unfold exec. rewrite Hfa. cbn.
  rewrite run_app, Hrun. cbn. by rewrite Hstep.
Qed.

(** Two workers, six frames, after worker 1 has delivered frame 1. *)
Lemma never_stuck_witness :
  ∃ e s', exec (Job 2 6 30 numbered) ([Resume (Worker 1)] ++ [e]) = Some s'.
Proof.
  eapply (never_stuck (Job 2 6 30 numbered) [Resume (Worker 1)]).
  - vm_compute. reflexivity.
  - discriminate.
Defined.


(** *** Starvation *)

Lemma polling_cases pc :
  polling pc = true →
  (∃ k, pc = Sleeping k) ∨ (∃ k, pc = Draining k InWaitLoop None).
Proof.
  destruct pc as [k|k|k [] [p|]|]; try done; intros _; [left|right]; by eexists.
Qed.

Lemma starved_set_worker s w pc0 pc :
  starved s → workers s !! w = Some pc0 → polling pc = true →
  starved (set_worker w pc s).
Proof.
  intros (Hm & Hex & Hall & Hsz & Hhead) Hw Hpc.
  apply lookup_lt_Some in Hw.
  split; [done|]. split; [|split; [|done]]; cbn.
  - exists w, pc. split; [|done]. by apply list_lookup_insert_eq.
  - apply Forall_insert; [done|by left].
Qed.

Lemma starved_step j fa e s s' :
  starved s → step j fa e s = Some s' →
  starved s' ∧ output s' = output s ∧ encodedCount s' = encodedCount s.
Proof.
  intros Hst Hstep. pose proof Hst as (Hm & Hex & Hall & Hsz & Hhead).
  destruct e as [[w|]|[w|]]; cbn in Hstep.
  - unfold runWorker in Hstep.
    destruct (fa !! w) as [frames|]; [|done]. cbn in Hstep.
    destruct (workers s !! w) as [pc|] eqn:Hpc; [|done]. cbn in Hstep.
    destruct (Forall_lookup_1 _ _ _ _ Hall Hpc) as [Hpoll| ->]; [|done].
    destruct (polling_cases pc Hpoll) as [[k ->]|[k ->]].
    + rewrite processEncodeQueue_call_blocked in Hstep by done.
      injection Hstep as <-. split; [|done].
      by eapply starved_set_worker.
    + cbn in Hstep. injection Hstep as <-. unfold wait_loop.
      rewrite decide_True by done. split; [|done].
      by eapply starved_set_worker.
  - unfold runMain in Hstep. rewrite Hm in Hstep.
    destruct Hex as (w & pc & Hpc & Hpoll).
    destruct (forallb is_finished (workers s)) eqn:Hfin; [|done].
    rewrite forallb_forall in Hfin.
    apply list_elem_of_lookup_2, list_elem_of_In, Hfin in Hpc.
    by destruct (polling_cases pc Hpoll) as [[k ->]|[k ->]].
  - destruct (workers s !! w) as [pc|] eqn:Hpc; [|done]. cbn in Hstep.
    destruct (Forall_lookup_1 _ _ _ _ Hall Hpc) as [Hpoll| ->]; [|done].
    by destruct (polling_cases pc Hpoll) as [[k ->]|[k ->]].
  - by rewrite Hm in Hstep.
Qed.

Lemma starved_run j fa tr : ∀ s s',
  starved s → run j fa tr s = Some s' →
  starved s' ∧ output s' = output s ∧ encodedCount s' = encodedCount s.
Proof.
  induction tr as [|e tr IH]; intros s s' Hst Hrun; cbn in Hrun.
  - by injection Hrun as <-.
  - destruct (step j fa e s) as [s1|] eqn:Hstep; [|done]. cbn in Hrun.
    destruct (starved_step _ _ _ _ _ Hst Hstep) as (Hst1 & Ho1 & He1).
    destruct (IH _ _ Hst1 Hrun) as (Hst' & Ho' & He').
    split; [done|]. split; congruence.
Qed.

Lemma starved_forever j tr tr' s s' :
  exec j tr = Some s → starved s → exec j (tr ++ tr') = Some s' →
  starved s' ∧ main s' ≠ Encoded ∧
  output s' = output s ∧ encodedCount s' = encodedCount s.
Proof.
  intros Hex Hst Hex'. destruct (exec_assignments _ _ _ Hex) as [fa Hfa].
  pose proof (exec_fa j fa Hfa _ _ Hex) as Hrun.
  pose proof (exec_fa j fa Hfa _ _ Hex') as Hrun'.
  rewrite run_app, Hrun in Hrun'. cbn in Hrun'.
  destruct (starved_run _ _ _ _ _ Hst Hrun') as (Hst' & Ho & He).
  split; [done|]. split; [|done].
  destruct Hst' as [Hm _]. by rewrite Hm.
Qed.

Lemma slow_first_capture_state (fps : Q) (capture : nat → Q → string) :
  (λ s, (main s, workers s, size (frameBuffer s),
         frameBuffer s !! nextEncodeFrame s, length (output s)))
    <$> exec (Job 6 366 fps capture) slow_first_capture
  = Some (AwaitWorkers,
          [Sleeping 1; Finished; Finished; Finished; Finished; Finished],
          300, None, 6).
Proof. vm_compute. reflexivity. Qed.

Lemma slow_first_capture_starves (fps : Q) (capture : nat → Q → string) :
  ∃ s, exec (Job 6 366 fps capture) slow_first_capture = Some s ∧
       starved s ∧ length (output s) = 6.
Proof.
  pose proof (slow_first_capture_state fps capture) as Hproj.
  destruct (exec (Job 6 366 fps capture) slow_first_capture) as [s|];
    [|discriminate Hproj].
  cbn [fmap option_fmap option_map] in Hproj.
  injection Hproj as Hm Hw Hsz Hhead Hout.
  exists s. split; [reflexivity|]. split; [|exact Hout].
  split; [exact Hm|]. split.
  { exists 0, (Sleeping 1). rewrite Hw. split; reflexivity. }
  split.
  { rewrite Hw. repeat (constructor; [first [by left|by right]|]). constructor. }
  split; [|exact Hhead].
  rewrite Hsz. unfold MAX_BUFFERED_FRAMES, ENCODE_BATCH_SIZE. lia.
Qed.

(** *** Termination when the buffer cannot fill up *)

Lemma size_bounded (m : gmap nat string) (N : nat) :
  (∀ i, is_Some (m !! i) → i < N) → size m ≤ N.
Proof.
  intros H. rewrite <- size_dom.
  rewrite <- (size_set_seq (C:=gset nat) 0 N). apply subseteq_size.
  intros i Hi. apply elem_of_dom in Hi. apply elem_of_set_seq.
  specialize (H i Hi). lia.
Qed.

Lemma sum_zip_insert (f : list nat → wpc → nat) fa : ∀ ws w frames pc pc',
  fa !! w = Some frames → ws !! w = Some pc →
  sum_list (zip_with f fa (<[w := pc']> ws)) + f frames pc
  = sum_list (zip_with f fa ws) + f frames pc'.
Proof.
  induction fa as [|fr fa IH]; intros ws w frames pc pc' Hw Hpc; [done|].
  destruct ws as [|pc0 ws]; [done|]. destruct w as [|w]; simpl in *.
  - injection Hw as ->. injection Hpc as ->.
    generalize (sum_list (zip_with f fa ws)). intros. lia.
  - specialize (IH ws w frames pc pc' Hw Hpc). revert IH.
    generalize (sum_list (zip_with f fa ws)),
      (sum_list (zip_with f fa (<[w:=pc']> ws))). intros. lia.
Qed.

Lemma call_fields j s :
  let s1 := (processEncodeQueue_call j s).1 in
  nextEncodeFrame s1 = nextEncodeFrame s ∧ encodedCount s1 = encodedCount s ∧
  output s1 = output s ∧ workers s1 = workers s ∧ main s1 = main s.
Proof.
  unfold processEncodeQueue_call.
  by destruct (collect _ _ _ _) as [[batch buf'] la].
Qed.

Lemma call_head j s x :
  frameBuffer s !! nextEncodeFrame s = Some x →
  is_Some (processEncodeQueue_call j s).2.
Proof.
  intros Hx. unfold processEncodeQueue_call, ENCODE_BATCH_SIZE.
  change (collect (fps j) 5 (frameBuffer s) (nextEncodeFrame s)) with
    (match frameBuffer s !! nextEncodeFrame s with
     | None => ([], frameBuffer s, nextEncodeFrame s)
     | Some d =>
         let '(batch, buf', la') :=
           collect (fps j) 4 (delete (nextEncodeFrame s) (frameBuffer s))
             (S (nextEncodeFrame s)) in
         (Frame d (timestamp_of (fps j) (nextEncodeFrame s)) :: batch, buf', la')
     end).
  rewrite Hx. destruct (collect _ _ _ _) as [[batch buf'] la]. cbn.
  rewrite decide_True by lia. by eexists.
Qed.

Lemma main_steps_mono N s s' :
  main s' = main s → encodedCount s ≤ encodedCount s' →
  main_steps N s' ≤ main_steps N s.
Proof.
  intros Hm He. unfold main_steps. rewrite Hm.
  destruct (main s); lia.
Qed.

Section Progress.
Context (j : job) (fa : list (list nat)).
Hypothesis Hfa : frameAssignments (numWorkers j) (totalFrames j) = Some fa.
Hypothesis Hsmall : totalFrames j ≤ MAX_BUFFERED_FRAMES.

Lemma drained_le s d : invariant j fa s d → d ≤ totalFrames j.
Proof.
  intros [_ Hi _ _].
  destruct (decide (d ≤ totalFrames j)) as [|Hgt]; [done|].
  assert (Hin : inserted fa (workers s) (totalFrames j))
    by (apply Hi; left; lia).
  apply (inserted_lt j fa Hfa) in Hin. lia.
Qed.

Lemma buffer_small s d :
  invariant j fa s d → size (frameBuffer s) ≤ MAX_BUFFERED_FRAMES.
Proof.
  intros [_ Hi _ _]. etrans; [|exact Hsmall]. apply size_bounded.
  intros i Hx. apply (inserted_lt j fa Hfa s). apply Hi. by right.
Qed.

(** When every worker has finished and no batch is in flight, the frame
    the encoder needs next is in the buffer. *)
Lemma head_present s d :
  invariant j fa s d → well_parked fa s →
  (∀ w pc, workers s !! w = Some pc → pc = Finished) →
  main_pending (main s) = None →
  encodedCount s < totalFrames j →
  is_Some (frameBuffer s !! nextEncodeFrame s).
Proof.
  intros [[_ Hd _] Hi _ _] Hwp Hfin Hmp Hlt.
  assert (Hnone : ∀ t, pending_of s t = None).
  { intros [w|]; cbn; [|done].
    destruct (workers s !! w) as [pc|] eqn:Hw; [|done]. cbn.
    by rewrite (Hfin w pc Hw). }
  destruct Hd as [(_ & Hn & He & _)|(t & p & Hp & _)];
    [|by rewrite Hnone in Hp].
  assert (HW : 0 < numWorkers j).
  { destruct (numWorkers j) eqn:HW; [|lia].
    destruct (totalFrames j); [lia|]. by vm_compute in Hfa. }
  assert (Hin : inserted fa (workers s) d).
  { pose proof (Nat.mod_upper_bound d (numWorkers j) ltac:(lia)) as Hmod.
    pose proof (frameAssignments_lookup _ _ _ (d mod numWorkers j) HW Hfa)
      as Hl.
    rewrite decide_True in Hl by done.
    pose proof (Forall2_length _ _ _ Hwp) as Hlen.
    destruct (lookup_lt_is_Some_2 (workers s) (d mod numWorkers j)) as [pc Hpc].
    { rewrite <- Hlen. by apply lookup_lt_Some in Hl. }
    exists (d mod numWorkers j),
      (residue_class (numWorkers j) (d mod numWorkers j) 0 (totalFrames j)), pc.
    split; [done|]. split; [done|].
    rewrite (Hfin _ _ Hpc).
    assert (Hd : d ∈ residue_class (numWorkers j) (d mod numWorkers j) 0
                   (totalFrames j)).
    { apply elem_of_residue_class. lia. }
    apply list_elem_of_lookup in Hd as [k Hk]. exists k. split; [done|].
    cbn. by apply lookup_lt_Some in Hk. }
  apply Hi in Hin as [?|Hin]; [lia|]. by rewrite Hn.
Qed.

Lemma drain_loop_progress s d :
  invariant j fa s d → well_parked fa s → calm s →
  (∀ w pc, workers s !! w = Some pc → pc = Finished) →
  main s = AwaitWorkers ∨ main s = MainSleeping →
  calm (drain_loop j s) ∧
  steps_left (totalFrames j) fa (drain_loop j s)
    < steps_left (totalFrames j) fa s.
Proof.
  intros Hinv Hwp [Hcw Hcm] Hfin Hmain. unfold drain_loop.
  destruct (decide (encodedCount s < totalFrames j)) as [Hlt|Hge].
  - assert (Hmp : main_pending (main s) = None)
      by (by destruct Hmain as [-> | ->]).
    destruct (head_present s d Hinv Hwp Hfin Hmp Hlt) as [x Hx].
    pose proof (call_head j s x Hx) as [p Hp].
    pose proof (call_fields j s) as (_ & He & Ho & Hw & _).
    destruct (processEncodeQueue_call j s) as [s1 p1]. cbn in *. subst p1.
    split.
    + split; cbn; [by rewrite Hw|done].
    + unfold steps_left, main_steps. cbn. rewrite Hw, He, Ho.
      destruct Hmain as [-> | ->]; lia.
  - split.
    + split; cbn; [done|done].
    + unfold steps_left, main_steps. cbn.
      destruct Hmain as [-> | ->]; lia.
Qed.

Lemma step_progress s d e s' :
  invariant j fa s d → well_parked fa s → calm s →
  step j fa e s = Some s' →
  calm s' ∧
  steps_left (totalFrames j) fa s' < steps_left (totalFrames j) fa s.
Proof.
  intros Hinv Hwp Hcalm Hstep. pose proof Hcalm as [Hcw Hcm].
  destruct e as [[w|]|t]; cbn in Hstep.
  - (* a worker resumes *)
    unfold runWorker in Hstep.
    destruct (fa !! w) as [frames|] eqn:Hw; [|done]. cbn in Hstep.
    destruct (workers s !! w) as [pc|] eqn:Hpc; [|done]. cbn in Hstep.
    pose proof (Forall2_lookup_lr _ _ _ _ _ _ Hwp Hw Hpc) as Hin.
    pose proof (Forall_lookup_1 _ _ _ _ Hcw Hpc) as Hnw.
    destruct pc as [k|k|k [] p|]; try done.
    + destruct (frames !! k) as [idx|] eqn:Hk; [|done]. cbn in Hstep.
      pose proof (call_fields j (frameBuffer_set idx
        (captureFrameJPEG j (S w) (timestamp_of (fps j) idx)) s))
        as (_ & He & Ho & Hws & Hm).
      destruct (processEncodeQueue_call j _) as [s2 p]. injection Hstep as <-.
      cbn in He, Ho, Hws, Hm. split.
      * split; cbn; [|by rewrite Hm].
        rewrite Hws. apply Forall_insert; done.
      * unfold steps_left, main_steps. cbn. rewrite Hws, He, Ho, Hm.
        pose proof (sum_zip_insert worker_steps fa (workers s) w frames
          (Capturing k) (Draining k AfterInsert p) Hw Hpc) as Hsum.
        cbn in Hsum, Hin. lia.
    + destruct (processEncodeQueue_return p s) as [s1|] eqn:Hret; [|done].
      injection Hstep as <-.
      assert (Hs1 : frameBuffer s1 = frameBuffer s ∧ workers s1 = workers s ∧
                    main s1 = main s ∧ output s1 = output s ∧
                    encodedCount s ≤ encodedCount s1).
      { destruct p as [[la n [|f rest]]|]; cbn in Hret; try done;
          injection Hret as <-; cbn; repeat split; lia. }
      destruct Hs1 as (Hb & Hws & Hm & Ho & He).
      assert (Hit : in_wait_loop (iteration frames (S k) s1) = false).
      { unfold iteration. destruct (frames !! S k); [|done].
        pose proof (buffer_small s d Hinv). rewrite Hb.
        by rewrite decide_False by lia. }
      split.
      * split; cbn; [|by rewrite Hm].
        rewrite Hws. apply Forall_insert; done.
      * unfold steps_left. cbn [workers output set_worker].
        rewrite Hws, Ho.
        pose proof (main_steps_mono (totalFrames j) s s1 Hm He) as Hmono.
        assert (Hms : main_steps (totalFrames j)
                        (set_worker w (iteration frames (S k) s1) s1)
                      = main_steps (totalFrames j) s1) by done.
        rewrite Hms.
        pose proof (sum_zip_insert worker_steps fa (workers s) w frames
          (Draining k AfterInsert p) (iteration frames (S k) s1) Hw Hpc)
          as Hsum.
        assert (worker_steps frames (iteration frames (S k) s1)
                < worker_steps frames (Draining k AfterInsert p)).
        { clear Hsum. unfold iteration, wait_loop in *. cbn in Hin |- *.
          destruct (frames !! S k) eqn:Hk; [|cbn; lia].
          repeat destruct (decide _); try done; cbn; lia. }
        lia.
  - (* the main task resumes *)
    unfold runMain in Hstep. destruct (main s) as [|p| |] eqn:Hm; [| | |done].
    + destruct (forallb is_finished (workers s)) eqn:Hall; [|done].
      injection Hstep as <-. apply (drain_loop_progress s d); try done.
      * intros w pc Hpc. rewrite forallb_forall in Hall.
        apply list_elem_of_lookup_2, list_elem_of_In, Hall in Hpc.
        by destruct pc.
      * by left.
    + destruct p as [p|]; [|done].
      destruct Hinv as [[_ Hd _] _ _ _].
      destruct Hd as [(Hnone & _)|(t & p0 & Hp0 & Hothers & _ & _ & Hpos & _)].
      { specialize (Hnone Main). cbn in Hnone. by rewrite Hm in Hnone. }
      assert (t = Main) as ->.
      { destruct (decide (t = Main)) as [|Hne]; [done|].
        specialize (Hothers Main ltac:(done)). cbn in Hothers.
        by rewrite Hm in Hothers. }
      cbn in Hp0. rewrite Hm in Hp0. injection Hp0 as <-.
      destruct p as [la n [|f rest]]; cbn in Hstep; [|done].
      injection Hstep as <-. cbn in Hpos. split.
      * split; [by case_decide|]. by case_decide.
      * unfold steps_left, main_steps.
        case_decide; cbn; rewrite Hm; lia.
    + injection Hstep as <-. apply (drain_loop_progress s d); try done.
      * destruct Hinv as [_ _ Hmain _]. apply Hmain. by rewrite Hm.
      * by right.
  - (* the encoder page adds a frame *)
    assert (Hout : ∀ p f rest, pending_of s t = Some p → todo p = f :: rest →
              length (output s) < totalFrames j).
    { intros p f rest Hp Htodo. pose proof (drained_le s d Hinv) as Hle.
      destruct Hinv as [[_ Hd _] _ _ _].
      destruct Hd as [(Hnone & _)|(t0 & p0 & Hp0 & Hothers & _ & _ & _ & _ & Ho & Ht)].
      { by rewrite Hnone in Hp. }
      assert (t = t0) as ->.
      { destruct (decide (t = t0)) as [|Hne]; [done|].
        by rewrite (Hothers t Hne) in Hp. }
      assert (p0 = p) as -> by congruence.
      rewrite Htodo in Ht.
      destruct (d - length (output s)) eqn:Hdiff; [done|]. lia. }
    unfold encoder_step in Hstep. destruct t as [w|].
    + destruct (workers s !! w) as [pc|] eqn:Hpc; [|done]. cbn in Hstep.
      destruct pc as [| |k st [p|]|]; try done.
      unfold loadAndEncode_add in Hstep.
      destruct (todo p) as [|f rest] eqn:Htodo; [done|]. cbn in Hstep.
      injection Hstep as <-.
      specialize (Hout p f rest). cbn in Hout. rewrite Hpc in Hout.
      specialize (Hout eq_refl Htodo).
      pose proof (Forall_lookup_1 _ _ _ _ Hcw Hpc) as Hnw.
      destruct (Forall2_lookup_r _ _ _ _ _ Hwp Hpc) as (frames & Hw & Hin).
      split.
      * split; cbn; [|done]. apply Forall_insert; [done|].
        by destruct st.
      * unfold steps_left, main_steps. cbn. rewrite length_app. cbn.
        pose proof (sum_zip_insert worker_steps fa (workers s) w frames
          (Draining k st (Some p))
          (Draining k st (Some (Pending (lookahead p) (batch_length p) rest)))
          Hw Hpc) as Hsum.
        cbn in Hsum. lia.
    + destruct (main s) as [|[p|]| |] eqn:Hm; try done.
      unfold loadAndEncode_add in Hstep.
      destruct (todo p) as [|f rest] eqn:Htodo; [done|]. cbn in Hstep.
      injection Hstep as <-.
      specialize (Hout p f rest). cbn in Hout. rewrite Hm in Hout.
      specialize (Hout eq_refl Htodo).
      split.
      * split; cbn; done.
      * unfold steps_left, main_steps. cbn. rewrite Hm, length_app. cbn. lia.
Qed.

Lemma run_progress tr : ∀ s d s',
  invariant j fa s d → well_parked fa s → calm s →
  run j fa tr s = Some s' →
  length tr + steps_left (totalFrames j) fa s'
    ≤ steps_left (totalFrames j) fa s.
Proof.
  induction tr as [|e tr IH]; intros s d s' Hinv Hwp Hcalm Hrun; cbn in Hrun.
  - injection Hrun as <-. cbn. lia.
  - destruct (step j fa e s) as [s1|] eqn:Hstep; [|done]. cbn in Hrun.
    destruct (step_progress s d e s1 Hinv Hwp Hcalm Hstep) as [Hcalm1 Hlt].
    destruct (step_inv j fa Hfa _ _ _ _ Hinv Hstep) as [d1 Hinv1].
    assert (Hwp1 : well_parked fa s1).
    { apply (run_parked j fa [e] s); [done|]. cbn. by rewrite Hstep. }
    specialize (IH s1 d1 s' Hinv1 Hwp1 Hcalm1 Hrun). cbn. lia.
Qed.

Lemma launch_calm : calm (launch fa).
Proof.
  split; [|done]. cbn. apply Forall_fmap, Forall_forall. intros frames _.
  cbn. unfold iteration. by destruct (frames !! 0).
Qed.

Lemma launch_steps :
  steps_left (totalFrames j) fa (launch fa) = 6 * totalFrames j + 2.
Proof.
  assert (Hsum : ∀ l : list (list nat),
    sum_list (zip_with worker_steps l
      ((λ frames, iteration frames 0 (State ∅ 0 0 [] [] AwaitWorkers)) <$> l))
    = 2 * length (concat l)).
  { induction l as [|frames l IH]; [done|]. cbn [fmap list_fmap zip_with
      sum_list sum_list_with concat]. rewrite length_app.
    fold (fmap (M:=list)
      (λ frames, iteration frames 0 (State ∅ 0 0 [] [] AwaitWorkers)) l).
    rewrite IH. rewrite launch_worker.
    destruct frames; cbn; lia. }
  assert (Hlen : length (concat fa) = totalFrames j).
  { destruct (decide (numWorkers j = 0)) as [HW|HW].
    - rewrite HW in Hfa. destruct (totalFrames j); [|by vm_compute in Hfa].
      by injection Hfa as <-.
    - rewrite frameAssignments_closed in Hfa by lia. injection Hfa as <-.
      rewrite concat_residue_classes by lia. apply length_seq. }
  unfold steps_left, main_steps, launch. cbn [workers main encodedCount output].
  rewrite Hsum, Hlen. cbn. lia.
Qed.

Lemma exec_bounded tr s :
  exec j tr = Some s → length tr ≤ 6 * totalFrames j + 2.
Proof.
  intros Hex. apply (exec_fa j fa Hfa) in Hex.
  pose proof (run_progress tr _ _ _ (launch_inv j fa) (launch_parked fa)
                launch_calm Hex) as H.
  rewrite launch_steps in H. lia.
Qed.

End Progress.

(** A job of at most [MAX_BUFFERED_FRAMES] frames: no schedule is longer
    than [6 * totalFrames + 2] events, a state that is not final always
    has a next event, and a final state holds every frame. *)
Lemma small_job_completes j tr s :
  totalFrames j ≤ MAX_BUFFERED_FRAMES → exec j tr = Some s →
  length tr ≤ 6 * totalFrames j + 2 ∧
  (main s ≠ Encoded → ∃ e s', exec j (tr ++ [e]) = Some s') ∧
  (main s = Encoded →
   output s = sample_of j <$> seq 0 (totalFrames j) ∧
   encodedCount s = totalFrames j ∧ frameBuffer s = ∅).
Proof.
  intros Hsmall Hex. destruct (exec_assignments _ _ _ Hex) as [fa Hfa].
  split; [by eapply exec_bounded|]. split.
  - intros Hmain.
    pose proof (exec_fa j fa Hfa _ _ Hex) as Hrun.
    pose proof (run_parked j fa tr _ _ (launch_parked fa) Hrun) as Hwp.
    destruct (enabled j fa s Hwp Hmain) as (e & s' & Hstep).
    exists e, s'. unfold exec. rewrite Hfa. cbn.
    rewrite run_app, Hrun. cbn. by rewrite Hstep.
  - intros Hmain. by apply (exec_encoded j tr).
Qed.


Lemma main_encoded_dec s : {main s = Encoded} + {main s ≠ Encoded}.
Proof. destruct (main s); (by left) || (by right). Qed.

Lemma small_job_can_finish j :
  totalFrames j ≤ MAX_BUFFERED_FRAMES →
  ∀ n tr s, 6 * totalFrames j + 2 - length tr ≤ n → exec j tr = Some s →
  ∃ tr' s', exec j (tr ++ tr') = Some s' ∧ main s' = Encoded.
Proof.
  intros Hsmall. induction n as [|n IH]; intros tr s Hn Hex;
    destruct (small_job_completes j tr s Hsmall Hex) as (Hlen & Hnext & _);
    (destruct (main_encoded_dec s) as [Hm|Hm];
       [exists [], s; by rewrite app_nil_r|]);
    destruct (Hnext Hm) as (e & s1 & Hex1).
  - destruct (small_job_completes j _ s1 Hsmall Hex1) as (Hlen1 & _).
    rewrite length_app in Hlen1. cbn in Hlen1. lia.
  - destruct (IH (tr ++ [e]) s1) as (tr' & s' & Hex' & Hm');
      [rewrite length_app; cbn; lia|done|].
    exists (e :: tr'), s'. split; [|done].
    by rewrite <- (assoc_L (++) tr [e] tr') in Hex'.
Qed.

(** X14.  A job of at most [MAX_BUFFERED_FRAMES] (300) frames, with any
    number of workers, always runs to the end: no schedule is longer than
    [6 * totalFrames + 2] events, a state in which the main loop has not
    ended always has a next event, every schedule can be continued to the
    end of the main loop, and at the end the encoder has received every
    frame, in order, and the buffer is empty. *)
Theorem small_jobs_always_finish (j : job) (tr : list event) (s : state) :
  totalFrames j ≤ MAX_BUFFERED_FRAMES → exec j tr = Some s →
  length tr ≤ 6 * totalFrames j + 2 ∧
  (main s ≠ Encoded → ∃ e s', exec j (tr ++ [e]) = Some s') ∧
  (∃ tr' s', exec j (tr ++ tr') = Some s' ∧ main s' = Encoded) ∧
  (main s = Encoded →
   output s = sample_of j <$> seq 0 (totalFrames j) ∧
   encodedCount s = totalFrames j ∧ frameBuffer s = ∅).
Proof.
  intros Hsmall Hex.
  destruct (small_job_completes j tr s Hsmall Hex) as (Hlen & Hnext & Hend).
  split; [done|]. split; [done|]. split; [|done].
  by eapply small_job_can_finish.
Qed.

(** Three workers, seven frames, after the captures of frames 2 and 1. *)
Lemma small_jobs_always_finish_witness :
  ∃ tr' s',
    exec (Job 3 7 30 numbered)
      ([Resume (Worker 2); Resume (Worker 2); Resume (Worker 1)] ++ tr')
      = Some s' ∧
    main s' = Encoded.
Proof.
  destruct (exec (Job 3 7 30 numbered)
              [Resume (Worker 2); Resume (Worker 2); Resume (Worker 1)])
    as [s|] eqn:Hex; [|vm_compute in Hex; discriminate].
  apply (small_jobs_always_finish (Job 3 7 30 numbered) _ s); [|exact Hex].
  cbn. unfold MAX_BUFFERED_FRAMES. lia.
Defined.

(** C3.  With [fps = 30] and a duration of 2 s, [Math.ceil(duration * fps)]
    is 60.  The job of 60 frames on 4 workers delivers them under every
    interleaving: no schedule is longer than 362 events, in every state in
    which the main loop has not ended a task can be resumed or the encoder
    page can add a frame, every schedule can be continued to the end of
    the main loop, and when the main loop has ended the encoder has
    received exactly 60 samples, the [i]-th being the capture of frame
    [i] (by page [i mod 4 + 1]) at timestamp [i / 30] with duration
    [1 / 30].  In general, for every job and every reachable state, the
    [i]-th sample the encoder received is the capture of frame [i] at
    [i / fps] with duration [1 / fps]. *)
Theorem sixty_frames_four_workers (capture : nat → Q → string) :
  frame_count 2 30 = Some 60 ∧
  (∀ tr s, exec (Job 4 60 30 capture) tr = Some s →
     length tr ≤ 362 ∧
     (main s ≠ Encoded →
      ∃ e s', exec (Job 4 60 30 capture) (tr ++ [e]) = Some s') ∧
     (∃ tr' s', exec (Job 4 60 30 capture) (tr ++ tr') = Some s' ∧
                main s' = Encoded) ∧
     (main s = Encoded →
      length (output s) = 60 ∧
      ∀ i, i < 60 →
        ∃ x, output s !! i = Some x ∧
             image x = capture (S (i mod 4)) (start x) ∧
             (start x == Z.of_nat i # 30)%Q ∧ (duration x == 1 # 30)%Q)) ∧
  (∀ j tr s i x, exec j tr = Some s → output s !! i = Some x →
     x = Sample (captureFrameJPEG j (S (i mod numWorkers j))
                   (timestamp_of (fps j) i))
                (timestamp_of (fps j) i) (1 / fps j)%Q).
Proof.
  assert (Hsmall : totalFrames (Job 4 60 30 capture) ≤ MAX_BUFFERED_FRAMES).
  { cbn. unfold MAX_BUFFERED_FRAMES. lia. }
  split; [vm_compute; reflexivity|]. split.
  - intros tr s Hex.
    destruct (small_job_completes _ tr s Hsmall Hex) as (Hlen & Hnext & _).
    split; [exact Hlen|]. split; [exact Hnext|]. split.
    { by eapply small_job_can_finish. }
    intros Hmain.
    destruct (exec_encoded _ _ _ Hex Hmain) as (Ho & _ & _).
    change (totalFrames _) with 60 in Ho.
    split; [by rewrite Ho, length_fmap, length_seq|].
    intros i Hi. rewrite Ho, list_lookup_fmap, lookup_seq_lt by done.
    eexists. split; [done|]. cbn. split; [done|].
    split; [apply timestamp_of_30|done].
  - intros j tr s i x Hex Hx. rewrite (exec_output _ _ _ Hex) in Hx.
    rewrite list_lookup_fmap in Hx.
    destruct (seq 0 (length (output s)) !! i) as [i'|] eqn:Hi; [|done].
    apply lookup_seq in Hi as [-> _]. by injection Hx as <-.
Qed.

(** The 60-frame job on pages that return the frame number, scheduled in
    frame order. *)
Lemma sixty_frames_four_workers_witness :
  ∃ s, exec (Job 4 60 30 numbered) (in_frame_order 4 60) = Some s ∧
       main s = Encoded ∧
       length (in_frame_order 4 60) ≤ 362 ∧
       length (output s) = 60 ∧
       output s !! 59 = Some (Sample "59" (59 # 30) (1 # 30)) ∧
       ∀ i, i < 60 →
         ∃ x, output s !! i = Some x ∧
              image x = numbered (S (i mod 4)) (start x) ∧
              (start x == Z.of_nat i # 30)%Q ∧ (duration x == 1 # 30)%Q.
Proof.
  eexists.
  split; [vm_compute; reflexivity|].
  split; [reflexivity|].
  destruct (proj1 (proj2 (sixty_frames_four_workers numbered))
              (in_frame_order 4 60) _ ltac:(vm_compute; reflexivity))
    as (Hlen & _ & _ & Hend).
  split; [exact Hlen|].
  split; [reflexivity|].
  split; [reflexivity|].
  apply Hend. reflexivity.
Defined.

(** C6 does not hold of the code: with more than five workers a job can
    fail to finish, where the same job on one worker finishes.  Six
    workers, 366 frames, any frame rate and any pages: when the first
    capture of worker 0 completes only after the other five workers have
    delivered their 61 frames each, worker 0 has frames 0 to 5 encoded
    and then waits in the inner loop of the flow control for the buffer
    to shrink to 295 frames.  The buffer holds 300 frames and the frame
    the encoder needs next, frame 6, is the one worker 0 would capture
    next.  From this state on, under every continuation, the main loop
    never ends and the encoder never receives a seventh frame.  The same
    job on one worker can run to the end, with all 366 frames encoded.
    In general a state in which every worker that has not finished waits
    in that loop, with more than 295 frames buffered and the frame at
    [nextEncodeFrame] missing, is never left. *)
Theorem six_workers_never_finish (fps : Q) (capture : nat → Q → string) :
  (∃ s, exec (Job 6 366 fps capture) slow_first_capture = Some s ∧
        starved s ∧ length (output s) = 6 ∧
        ∀ tr' s',
          exec (Job 6 366 fps capture) (slow_first_capture ++ tr') = Some s' →
          main s' ≠ Encoded ∧ output s' = output s) ∧
  (∃ tr1 s1, exec (Job 1 366 fps capture) tr1 = Some s1 ∧
             main s1 = Encoded ∧
             output s1 = sample_of (Job 1 366 fps capture) <$> seq 0 366) ∧
  (∀ j tr tr' s s',
     exec j tr = Some s → starved s → exec j (tr ++ tr') = Some s' →
     starved s' ∧ main s' ≠ Encoded ∧
     output s' = output s ∧ encodedCount s' = encodedCount s).
Proof.
  split; [|split].
  - destruct (slow_first_capture_starves fps capture) as (s & Hex & Hst & Hout).
    exists s. split; [exact Hex|]. split; [exact Hst|]. split; [exact Hout|].
    intros tr' s' Hex'.
    destruct (starved_forever _ _ _ _ _ Hex Hst Hex') as (_ & Hne & Ho & _).
    exact (conj Hne Ho).
  - destruct (completes (Job 1 366 fps capture)) as (tr1 & s1 & Hex1 & Hm1);
      [cbn; lia|].
    exists tr1, s1. split; [done|]. split; [done|].
    by destruct (exec_encoded _ _ _ Hex1 Hm1) as (Ho & _ & _).
  - intros j tr tr' s s'. apply starved_forever.
Qed.

End LivenessProps.

(** ** The capability detector *)

Module GpuProps.
Import Js Gpu.

Lemma testGPUBackend_eq e b w :
  testGPUBackend e b w = (Ok (probe_info (probe_of e b)), note_probe b w).
Proof.
  unfold testGPUBackend, chromium_launch, try_catch, bind, modify, of_result,
    probe_info, failed, ret, throw.
  destruct (launch (probe_of e b)); [|done].
  destruct (evaluate (probe_of e b)); [|done].
  by destruct (close (probe_of e b)).
Qed.

Lemma saveCachedConfig_eq e c w :
  saveCachedConfig e c w =
    (Ok tt, World (cachedConfig w)
              (if writable e then Json (stamp e) c else cacheFile w)
              (probed w)).
Proof.
  unfold saveCachedConfig, writeFile, try_catch, modify, throw, ret.
  destruct (writable e); [done|]. by destruct w.
Qed.

Lemma try_backend_eq e b w :
  try_backend e b w =
    if accelerated (probe_info (probe_of e b))
    then (Ok (Some (hardware_config b (probe_info (probe_of e b)))),
          remember e (hardware_config b (probe_info (probe_of e b)))
            (note_probe b w))
    else (Ok None, note_probe b w).
Proof.
  unfold try_backend, bind. rewrite testGPUBackend_eq.
  destruct (accelerated _); [|done].
  unfold set_cachedConfig, modify. rewrite saveCachedConfig_eq. done.
Qed.

Lemma loadCachedConfig_eq e w :
  loadCachedConfig e w =
    (Ok match cacheFile w with
        | Json t c => if decide (now e - t < CACHE_TTL)%Z then Some c else None
        | _ => None
        end, w).
Proof.
  unfold loadCachedConfig, readFile, JSON_parse, try_catch, bind, gets, ret,
    throw.
  destruct (cacheFile w) as [| |t c]; cbn; try done.
  by case_decide.
Qed.

Lemma try_backends_spec e bs : ∀ w,
  ∃ r w', try_backends e bs w = (Ok r, w') ∧
    match r with
    | Some c => cachedConfig w' = Some c ∧ c_isHardwareAccelerated c = true ∧
                length (probed w) < length (probed w') ∧ ¬ all_fail e bs
    | None => cachedConfig w' = cachedConfig w ∧ cacheFile w' = cacheFile w ∧
              probed w' = probed w ++ (name <$> bs) ∧ all_fail e bs
    end.
Proof.
  induction bs as [|b bs IH]; intros w; cbn [try_backends].
  - exists None, w. split; [done|]. rewrite app_nil_r.
    repeat split. intros b Hb. by apply elem_of_nil in Hb.
  - unfold bind. rewrite try_backend_eq.
    destruct (accelerated (probe_info (probe_of e b))) eqn:Hacc.
    + eexists (Some _), _. split; [done|]. cbn.
      split; [done|]. split; [done|]. rewrite length_app. cbn. split; [lia|].
      intros Hall. specialize (Hall b ltac:(by left)). congruence.
    + destruct (IH (note_probe b w)) as (r & w' & Heq & Hr).
      exists r, w'. split; [done|]. destruct r as [c|].
      * destruct Hr as (? & ? & Hlen & Hnot). split; [done|]. split; [done|].
        cbn in Hlen. rewrite length_app in Hlen. cbn in Hlen. split; [lia|].
        intros Hall. apply Hnot. intros b' Hb'. apply Hall. by right.
      * destruct Hr as (? & ? & Hp & Hall). split; [done|]. split; [done|].
        split.
        -- rewrite Hp. cbn. by rewrite <- app_assoc.
        -- intros b' Hb'. apply elem_of_cons in Hb' as [->|Hb']; [done|].
           by apply Hall.
Qed.

Lemma find_elem_of {A} (f : A → bool) (l : list A) x :
  List.find f l = Some x → x ∈ l.
Proof.
  intros H. apply find_some in H as [H _]. by apply list_elem_of_In.
Qed.

Lemma try_preferred_spec e o bs w :
  ∃ r w', try_preferred e o bs w = (Ok r, w') ∧
    match r with
    | Some c => cachedConfig w' = Some c ∧ c_isHardwareAccelerated c = true ∧
                length (probed w) < length (probed w') ∧ ¬ all_fail e bs
    | None => cachedConfig w' = cachedConfig w ∧ cacheFile w' = cacheFile w ∧
              length (probed w) ≤ length (probed w')
    end.
Proof.
  unfold try_preferred.
  destruct (preferBackend o) as [pref|]; [|by exists None, w].
  destruct (String.eqb pref ""%string); [by exists None, w|].
  destruct (List.find _ bs) as [b|] eqn:Hfind; [|by exists None, w].
  rewrite try_backend_eq.
  destruct (accelerated (probe_info (probe_of e b))) eqn:Hacc.
  - eexists (Some _), _. split; [done|]. cbn.
    split; [done|]. split; [done|]. rewrite length_app. cbn. split; [lia|].
    intros Hall. apply find_elem_of in Hfind. apply Hall in Hfind. congruence.
  - exists None, (note_probe b w). split; [done|]. cbn.
    rewrite length_app. cbn. repeat split; lia.
Qed.

Lemma GPU_BACKENDS_nonempty plat : 0 < length (GPU_BACKENDS plat).
Proof.
  unfold GPU_BACKENDS.
  destruct (String.eqb plat "darwin"%string); [cbn; lia|].
  destruct (String.eqb plat "win32"%string); cbn; lia.
Qed.

(** Probing always ends with a profile: it launches at least one browser,
    remembers what it returns, and returns the software fallback when no
    candidate is accelerated. *)
Lemma detect_spec e o w :
  ∃ c w', detect e o w = (Ok c, w') ∧ cachedConfig w' = Some c ∧
    length (probed w) < length (probed w') ∧
    (all_fail e (GPU_BACKENDS (platform e)) → c = software_config) ∧
    (c_isHardwareAccelerated c = false → c = software_config).
Proof.
  unfold detect, bind.
  destruct (try_preferred_spec e o (GPU_BACKENDS (platform e)) w)
    as (r & w1 & -> & Hr).
  destruct r as [c|].
  - destruct Hr as (Hc & Hhw & Hlen & Hnot). exists c, w1.
    split; [done|]. split; [done|]. split; [done|].
    split; [done|congruence].
  - destruct Hr as (Hc1 & Hf1 & Hlen1).
    destruct (try_backends_spec e (GPU_BACKENDS (platform e)) w1)
      as (r & w2 & -> & Hr).
    destruct r as [c|].
    + destruct Hr as (Hc & Hhw & Hlen & Hnot). exists c, w2.
      split; [done|]. split; [done|]. split; [lia|].
      split; [done|congruence].
    + destruct Hr as (Hc & Hf & Hp & Hall).
      unfold set_cachedConfig, modify. rewrite saveCachedConfig_eq.
      eexists _, _. split; [done|]. cbn. split; [done|].
      pose proof (GPU_BACKENDS_nonempty (platform e)) as Hne.
      rewrite Hp, length_app, length_fmap. split; [lia|done].
Qed.

Lemma detectBestGPUConfig_miss e o w :
  cache_miss e o w → detectBestGPUConfig e o w = detect e o w.
Proof.
  unfold detectBestGPUConfig, bind, gets, ret.
  intros [Hforce|[Hmem Hfile]].
  - rewrite Hforce. done.
  - destruct (forceDetect o); [done|]. rewrite Hmem, loadCachedConfig_eq.
    destruct (cacheFile w) as [| |t c]; try done.
    rewrite decide_False by lia. done.
Qed.

Lemma detectBestGPUConfig_memory e o w c :
  forceDetect o = false → cachedConfig w = Some c →
  detectBestGPUConfig e o w = (Ok c, w).
Proof.
  intros Hforce Hmem. unfold detectBestGPUConfig, bind, gets, ret.
  by rewrite Hforce, Hmem.
Qed.

Lemma detectBestGPUConfig_file e o w t c :
  forceDetect o = false → cachedConfig w = None → cacheFile w = Json t c →
  (now e - t < CACHE_TTL)%Z →
  detectBestGPUConfig e o w = (Ok c, World (Some c) (cacheFile w) (probed w)).
Proof.
  intros Hforce Hmem Hfile Httl.
  unfold detectBestGPUConfig, bind, gets, ret, set_cachedConfig, modify.
  rewrite Hforce, Hmem, loadCachedConfig_eq, Hfile.
  rewrite decide_True by done. by rewrite Hfile.
Qed.

Lemma detectBestGPUConfig_total e o w :
  ∃ c w', detectBestGPUConfig e o w = (Ok c, w') ∧
          cachedConfig w' = Some c ∧
          (cache_miss e o w → all_fail e (GPU_BACKENDS (platform e)) →
           c = software_config).
Proof.
  destruct (detect_spec e o w) as (c & w' & Hd & Hc & _ & Hall & _).
  assert (Hmiss : cache_miss e o w →
    ∃ c w', detectBestGPUConfig e o w = (Ok c, w') ∧ cachedConfig w' = Some c ∧
            (cache_miss e o w → all_fail e (GPU_BACKENDS (platform e)) →
             c = software_config)).
  { intros Hm. rewrite (detectBestGPUConfig_miss e o w Hm), Hd.
    by exists c, w'. }
  destruct (forceDetect o) eqn:Hforce; [apply Hmiss; by left|].
  destruct (cachedConfig w) as [c0|] eqn:Hmem.
  + exists c0, w. rewrite (detectBestGPUConfig_memory e o w c0) by done.
    split; [done|]. split; [done|]. intros [?|[? _]]; congruence.
  + destruct (cacheFile w) as [| |t c1] eqn:Hfile;
      try (apply Hmiss; right; by rewrite Hfile).
    destruct (decide (now e - t < CACHE_TTL)%Z) as [Httl|Hexp].
    * eexists c1, _.
      rewrite (detectBestGPUConfig_file e o w t c1) by done.
      split; [done|]. split; [done|].
      intros [?|[_ Hexp]]; [congruence|]. rewrite Hfile in Hexp. lia.
    * apply Hmiss. right. rewrite Hfile. split; [done|lia].
Qed.

(** C8.  [detectBestGPUConfig] returns a profile on every input, it never
    throws, and the profile it returns is the one it leaves in memory.
    Every probe returns normally too: a launch that rejects (which
    includes the launch timeout), a page evaluation that throws, a missing
    WebGL context, a missing debug extension or a failing close all give a
    result that is not accelerated.  When neither cache answers and no
    candidate of the platform is accelerated, the result is the software
    fallback, whose backend is "software" and whose acceleration flag is
    false. *)
Theorem detectBestGPUConfig_never_throws (e : env) (o : options) (w : world) :
  (∃ c w', detectBestGPUConfig e o w = (Ok c, w') ∧
           cachedConfig w' = Some c ∧
           (cache_miss e o w → all_fail e (GPU_BACKENDS (platform e)) →
            c = software_config)) ∧
  (∀ b w0, ∃ info,
     testGPUBackend e b w0 = (Ok info, note_probe b w0) ∧
     ((∃ msg, launch (probe_of e b) = Throw msg) ∨
      (∃ msg, evaluate (probe_of e b) = Throw msg) ∨
      evaluate (probe_of e b) = Ok NoContext ∨
      evaluate (probe_of e b) = Ok NoDebugInfo ∨
      (∃ msg, close (probe_of e b) = Throw msg) →
      accelerated info = false)) ∧
  c_backend software_config = "software"%string ∧
  c_isHardwareAccelerated software_config = false.
Proof.
  split; [|split; [|done]].
  - apply detectBestGPUConfig_total.
  - intros b w0. exists (probe_info (probe_of e b)).
    split; [apply testGPUBackend_eq|].
    unfold probe_info, accelerated.
    intros [[m H]|[[m H]|[H|[H|[m H]]]]]; rewrite H;
      destruct (launch (probe_of e b)); try done;
      destruct (evaluate (probe_of e b)); try done;
      destruct (close (probe_of e b)); done.
Qed.

(** A machine whose four candidates fail by launch timeout, evaluation
    error, missing WebGL context and software renderer. *)
Lemma detectBestGPUConfig_never_throws_witness :
  ∃ w', detectBestGPUConfig (no_gpu 1000) (Options false None) fresh
          = (Ok software_config, w') ∧
        probed w' = ["vulkan"; "egl"; "desktop"; "angle-gl"]%string.
Proof.
  destruct (proj1 (detectBestGPUConfig_never_throws (no_gpu 1000)
                     (Options false None) fresh))
    as (c & w' & Heq & _ & Hsoft).
  rewrite (Hsoft (or_intror (conj eq_refl I))) in Heq.
  - exists w'. split; [exact Heq|].
    vm_compute in Heq. by injection Heq as <-.
  - intros b Hb. repeat (apply elem_of_cons in Hb as [->|Hb]; [reflexivity|]).
    by apply elem_of_nil in Hb.
Defined.

(** C7, as stated, fails.  A first call at time 1000 probes, selects [egl]
    and persists it.  A second, unforced call in the same process more
    than 24 h later, on a machine where a fresh detection would now find
    no GPU, launches no probe and returns the stale [egl] profile: the
    world is unchanged.  Only a forced call probes again and replaces the
    profile by the software fallback. *)
Lemma stale_profile_outlives_ttl :
  ∃ c w1,
    detectBestGPUConfig (egl_machine 1000) (Options false None) fresh
      = (Ok c, w1) ∧
    cacheFile w1 = Json 1000 c ∧
    probed w1 = ["vulkan"; "egl"]%string ∧
    c_backend c = "egl"%string ∧
    (CACHE_TTL ≤ (1000 + CACHE_TTL + 1) - 1000)%Z ∧
    detectBestGPUConfig (no_gpu (1000 + CACHE_TTL + 1)) (Options false None) w1
      = (Ok c, w1) ∧
    (λ r, (c_backend <$> cachedConfig r.2, probed r.2))
      (detectBestGPUConfig (no_gpu (1000 + CACHE_TTL + 1)) (Options true None) w1)
      = (Some "software"%string,
         ["vulkan"; "egl"; "vulkan"; "egl"; "desktop"; "angle-gl"]%string).
Proof.
  eexists _, _.
  split; [vm_compute; reflexivity|].
  split; [reflexivity|]. split; [reflexivity|]. split; [reflexivity|].
  split; [vm_compute; discriminate|].
  split; vm_compute; reflexivity.
Qed.

(** C7, amended.  After a call has returned a profile and left it in the
    cache file with timestamp [t]: every later unforced call on the same
    in-memory state returns that profile and changes nothing, at any time
    (the in-memory copy has no expiry); an unforced call in a fresh
    process (empty memory) at a time [now] with [now - t < CACHE_TTL]
    returns it too, launching no probe; and an unforced call in a fresh
    process with [now - t >= CACHE_TTL] behaves as a detection from
    scratch, which launches at least one probe. *)
Theorem cached_profile_reuse (e1 : env) (o1 : options) (w0 : world)
    (c : config) (w1 : world) (t : Z) :
  detectBestGPUConfig e1 o1 w0 = (Ok c, w1) →
  cacheFile w1 = Json t c →
  (∀ e2 o2, forceDetect o2 = false →
     detectBestGPUConfig e2 o2 w1 = (Ok c, w1)) ∧
  (∀ e2 o2 log, forceDetect o2 = false → (now e2 - t < CACHE_TTL)%Z →
     detectBestGPUConfig e2 o2 (World None (cacheFile w1) log)
       = (Ok c, World (Some c) (cacheFile w1) log)) ∧
  (∀ e2 o2 log, forceDetect o2 = false → (CACHE_TTL ≤ now e2 - t)%Z →
     detectBestGPUConfig e2 o2 (World None (cacheFile w1) log)
       = detect e2 o2 (World None (cacheFile w1) log) ∧
     ∃ c' w', detect e2 o2 (World None (cacheFile w1) log) = (Ok c', w') ∧
              length log < length (probed w')).
Proof.
  intros Hcall Hfile.
  assert (Hmem : cachedConfig w1 = Some c).
  { destruct (detectBestGPUConfig_total e1 o1 w0) as (c' & w' & Heq & Hc & _).
    rewrite Hcall in Heq. by injection Heq as -> ->. }
  split; [|split].
  - intros e2 o2 Hforce. by apply detectBestGPUConfig_memory.
  - intros e2 o2 log Hforce Httl.
    by apply (detectBestGPUConfig_file e2 o2
                (World None (cacheFile w1) log) t c).
  - intros e2 o2 log Hforce Hexp. split.
    + apply detectBestGPUConfig_miss. right. cbn. rewrite Hfile. done.
    + destruct (detect_spec e2 o2 (World None (cacheFile w1) log))
        as (c' & w' & Hd & _ & Hlen & _).
      by exists c', w'.
Qed.

(** The profile persisted at time 1000 on the [egl] machine. *)
Lemma cached_profile_reuse_witness :
  ∃ c w1,
    detectBestGPUConfig (egl_machine 1000) (Options false None) fresh
      = (Ok c, w1) ∧
    (∀ e2 o2, forceDetect o2 = false →
       detectBestGPUConfig e2 o2 w1 = (Ok c, w1)) ∧
    (∀ e2 o2 log, forceDetect o2 = false → (now e2 - 1000 < CACHE_TTL)%Z →
       detectBestGPUConfig e2 o2 (World None (cacheFile w1) log)
         = (Ok c, World (Some c) (cacheFile w1) log)) ∧
    (∀ e2 o2 log, forceDetect o2 = false → (CACHE_TTL ≤ now e2 - 1000)%Z →
       detectBestGPUConfig e2 o2 (World None (cacheFile w1) log)
         = detect e2 o2 (World None (cacheFile w1) log) ∧
       ∃ c' w', detect e2 o2 (World None (cacheFile w1) log) = (Ok c', w') ∧
                length log < length (probed w')).
Proof.
  eexists _, _. split; [vm_compute; reflexivity|].
  apply (cached_profile_reuse (egl_machine 1000) (Options false None) fresh).
  - vm_compute; reflexivity.
  - reflexivity.
Defined.

(** C4 does not hold of [testGPUBackend].  Its signature test is the
    negation of [isSoftware], which knows four signatures and has no
    clause for "mesa" together with "llvm".  A renderer string with both
    words and none of the four signatures is classified as
    hardware-accelerated by the probe, and as software by the same test
    in the diagnostics script. *)
Theorem mesa_llvm_counts_as_hardware :
  includes (toLowerCase radeon) "mesa" = true ∧
  includes (toLowerCase radeon) "llvm" = true ∧
  isSoftware (toLowerCase radeon) = false ∧
  isHardwareAccelerated (inspect (DebugInfo (Some radeon) (Some "AMD"%string)))
    = Some true ∧
  accelerated (probe_info (reports radeon)) = true ∧
  diagnostics_hardwareAccelerated (Some radeon) = false ∧
  (∀ r v, isHardwareAccelerated (inspect (DebugInfo r v))
          = Some (negb (isSoftware (toLowerCase (default ""%string r))))).
Proof. repeat (split; [vm_compute; reflexivity|]). done. Qed.

End GpuProps.

(** ** The rest of the detector and the command line *)

Module GpuApiProps.
Import Js Gpu GpuApi GpuProps.

Local Close Scope string_scope.

Lemma probes_nil w : probes [] w = w.
Proof. unfold probes. cbn. rewrite app_nil_r. by destruct w. Qed.

Lemma probes_cons b bs w : probes (b :: bs) w = probes bs (note_probe b w).
Proof. unfold probes, note_probe. cbn. by rewrite <- app_assoc. Qed.

Lemma try_backends_eq e bs : ∀ w,
  try_backends e bs w =
    match list_find (is_accelerated e) bs with
    | Some (i, b) =>
        (Ok (Some (profile_of e b)),
         remember e (profile_of e b) (probes (take (S i) bs) w))
    | None => (Ok None, probes bs w)
    end.
Proof.
  induction bs as [|b bs IH]; intros w.
  - cbn. by rewrite probes_nil.
  - cbn [try_backends list_find]. unfold bind. rewrite try_backend_eq.
    unfold is_accelerated at 1.
    destruct (decide _) as [Hacc|Hacc].
    + rewrite Hacc. cbn [take]. rewrite probes_cons, probes_nil. done.
    + apply not_true_is_false in Hacc. rewrite Hacc.
      rewrite IH. destruct (list_find _ bs) as [[i b']|]; cbn.
      * by rewrite probes_cons.
      * by rewrite probes_cons.
Qed.

Lemma try_preferred_none e o bs w :
  no_preference o → try_preferred e o bs w = (Ok None, w).
Proof. unfold try_preferred. by intros [->| ->]. Qed.

Lemma detect_eq e o w :
  no_preference o →
  detect e o w = first_accelerated e (GPU_BACKENDS (platform e)) w.
Proof.
  intros Hno. unfold detect, bind. rewrite (try_preferred_none _ _ _ _ Hno).
  rewrite try_backends_eq. unfold first_accelerated.
  destruct (list_find _ _) as [[i b]|]; [done|].
  unfold set_cachedConfig, modify. rewrite saveCachedConfig_eq. done.
Qed.

(** X1.  A detection that finds both caches empty or expired (or is
    forced) and has no preferred backend tries the backends of the
    platform in their listed order and stops at the first whose probe is
    hardware-accelerated: it returns that backend's profile, remembers and
    persists it, and has launched a browser for exactly the backends up to
    and including it.  When none is accelerated it has probed every
    backend once and returns the software fallback. *)
Theorem detection_follows_priority (e : env) (o : options) (w : world) :
  no_preference o → cache_miss e o w →
  detectBestGPUConfig e o w =
    first_accelerated e (GPU_BACKENDS (platform e)) w ∧
  (∀ i b, list_find (is_accelerated e) (GPU_BACKENDS (platform e)) = Some (i, b) →
     GPU_BACKENDS (platform e) !! i = Some b ∧ is_accelerated e b ∧
     (∀ k b', k < i → GPU_BACKENDS (platform e) !! k = Some b' →
              ¬ is_accelerated e b')).
Proof.
  intros Hno Hmiss. split.
  - rewrite detectBestGPUConfig_miss by done. by apply detect_eq.
  - intros i b Hfind. apply list_find_Some in Hfind as (Hi & Hb & Hmin).
    split; [done|]. split; [done|]. intros k b' Hk Hb'. by eapply Hmin.
Qed.


(** A preference that names a backend of the platform. *)
Lemma try_preferred_found e o bs w pref b :
  preferBackend o = Some pref → pref ≠ ""%string →
  List.find (λ b, String.eqb (name b) pref) bs = Some b →
  try_preferred e o bs w = try_backend e b w.
Proof.
  intros Hp Hne Hfind. unfold try_preferred. rewrite Hp.
  destruct (String.eqb_spec pref ""); [done|]. by rewrite Hfind.
Qed.

Lemma try_preferred_unknown e o bs w pref :
  preferBackend o = Some pref →
  List.find (λ b, String.eqb (name b) pref) bs = None →
  try_preferred e o bs w = (Ok None, w).
Proof.
  intros Hp Hfind. unfold try_preferred. rewrite Hp, Hfind.
  by destruct (String.eqb pref "").
Qed.

Lemma detect_after_preferred e o w r w1 :
  try_preferred e o (GPU_BACKENDS (platform e)) w = (Ok r, w1) →
  detect e o w =
    match r with
    | Some c => (Ok c, w1)
    | None => first_accelerated e (GPU_BACKENDS (platform e)) w1
    end.
Proof.
  intros Hp. unfold detect, bind. rewrite Hp. destruct r as [c|]; [done|].
  rewrite try_backends_eq. unfold first_accelerated.
  destruct (list_find _ _) as [[i b]|]; [done|].
  unfold set_cachedConfig, modify. rewrite saveCachedConfig_eq. done.
Qed.



(** On the machine whose [egl] backend reaches the GPU the detection
    probes [vulkan], then [egl], and stops. *)
Lemma detection_follows_priority_witness :
  ∃ c w',
    detectBestGPUConfig (egl_machine 1000) (Options false None) fresh
      = (Ok c, w') ∧
    c_backend c = "egl"%string ∧ probed w' = ["vulkan"; "egl"]%string.
Proof.
  eexists _, _. split.
  - rewrite (proj1 (detection_follows_priority (egl_machine 1000)
                      (Options false None) fresh
                      (or_introl eq_refl) (or_intror (conj eq_refl I)))).
    vm_compute. reflexivity.
  - split; reflexivity.
Defined.

(** *** Clearing the cache *)

Lemma clearGPUCache_eq deletable w :
  clearGPUCache deletable w =
    (Ok tt,
     World None
       (if deletable then Missing else cacheFile w) (probed w)).
Proof.
  unfold clearGPUCache, unlink, try_catch, bind, modify, gets, ret, throw.
  cbn. destruct (cacheFile w) eqn:Hf, deletable; cbn; by rewrite ?Hf.
Qed.

(** What a detection from scratch returns does not depend on the caches. *)
Lemma detect_result e o w w' : (detect e o w).1 = (detect e o w').1.
Proof.
  assert (H : ∀ w, (detect e o w).1 =
    match preferBackend o with
    | None => (first_accelerated e (GPU_BACKENDS (platform e)) w).1
    | Some pref =>
        if String.eqb pref ""
        then (first_accelerated e (GPU_BACKENDS (platform e)) w).1
        else match List.find (λ b, String.eqb (name b) pref)
                     (GPU_BACKENDS (platform e)) with
             | Some b =>
                 if decide (is_accelerated e b) then Ok (profile_of e b)
                 else (first_accelerated e (GPU_BACKENDS (platform e)) w).1
             | None => (first_accelerated e (GPU_BACKENDS (platform e)) w).1
             end
    end).
  { intros w0. destruct (preferBackend o) as [pref|] eqn:Hp.
    - destruct (String.eqb_spec pref "") as [->|Hne].
      + rewrite detect_eq; [done|by right].
      + destruct (List.find _ _) as [b|] eqn:Hfind.
        * pose proof (try_preferred_found e o _ w0 pref b Hp Hne Hfind) as Heq.
          rewrite try_backend_eq in Heq. unfold is_accelerated.
          destruct (decide _) as [Hacc|Hacc].
          -- rewrite Hacc in Heq.
             by rewrite (detect_after_preferred _ _ _ _ _ Heq).
          -- apply not_true_is_false in Hacc. rewrite Hacc in Heq.
             rewrite (detect_after_preferred _ _ _ _ _ Heq).
             unfold first_accelerated.
             by destruct (list_find _ _) as [[??]|].
        * pose proof (try_preferred_unknown e o _ w0 pref Hp Hfind) as Heq.
          by rewrite (detect_after_preferred _ _ _ _ _ Heq).
    - rewrite detect_eq; [done|by left]. }
  rewrite (H w), (H w'). unfold first_accelerated.
  by destruct (list_find _ _) as [[??]|].
Qed.

(** X3.  [clearGPUCache], when the cache file can be removed, never
    throws and leaves no cache behind: memory is empty and the file is
    gone.  The next [detectBestGPUConfig], forced or not, probes from
    scratch (at least one browser is launched) and returns the profile
    that a forced detection would have returned without the clearing. *)
Theorem clearGPUCache_forces_detection (e : env) (o : options) (w : world) :
  let w1 := World None Missing (probed w) in
  clearGPUCache true w = (Ok tt, w1) ∧
  detectBestGPUConfig e o w1 = detect e o w1 ∧
  (detect e o w1).1
    = (detectBestGPUConfig e (Options true (preferBackend o)) w).1 ∧
  length (probed w) < length (probed (detect e o w1).2).
Proof.
  intros w1. split; [apply clearGPUCache_eq|]. split; [|split].
  - apply detectBestGPUConfig_miss. right. done.
  - rewrite detectBestGPUConfig_miss by (by left).
    rewrite (detect_result e o w1 w).
    unfold detect. done.
  - destruct (detect_spec e o w1) as (c & w' & -> & _ & Hlen & _). done.
Qed.

(** X4.  When the cache file cannot be removed (the [unlink] rejects and
    the error is swallowed) and its timestamp is less than 24 h old,
    [clearGPUCache] followed by an unforced [detectBestGPUConfig] returns
    the profile stored in the file, whatever backend is preferred, and
    launches no probe. *)
Theorem undeletable_cache_survives_clear (e : env) (o : options) (w : world)
    (t : Z) (c : config) :
  cacheFile w = Json t c → (now e - t < CACHE_TTL)%Z →
  forceDetect o = false →
  bind (clearGPUCache false) (λ _, detectBestGPUConfig e o) w
    = (Ok c, World (Some c) (Json t c) (probed w)).
Proof.
  intros Hfile Httl Hforce. unfold bind at 1. rewrite clearGPUCache_eq.
  rewrite (detectBestGPUConfig_file e o _ t c); cbn; try done.
  by rewrite Hfile.
Qed.

(** Another user's profile for [egl], one hour old, on a machine whose
    every backend is accelerated: asking for [vulkan] returns [egl]. *)
Lemma undeletable_cache_survives_clear_witness :
  ∃ c,
    c_backend c = "egl"%string ∧
    bind (clearGPUCache false)
      (λ _, detectBestGPUConfig (all_gpus 3600000)
              (Options false (Some "vulkan"%string)))
      (World None (Json 0 c) [])
    = (Ok c, World (Some c) (Json 0 c) []).
Proof.
  exists (profile_of (egl_machine 0)
            (Backend "egl" "EGL (Intel/Mesa)" (Some "chromium"%string) true [])).
  split; [reflexivity|].
  apply (undeletable_cache_survives_clear (all_gpus 3600000)); try reflexivity.
Defined.


(** *** Selection by name *)

Lemma GPU_BACKENDS_cases plat :
  GPU_BACKENDS plat = darwin_backends ∧ plat = "darwin"%string ∨
  GPU_BACKENDS plat = win32_backends ∧ plat = "win32"%string ∨
  GPU_BACKENDS plat = linux_backends ∧
    plat ≠ "darwin"%string ∧ plat ≠ "win32"%string.
Proof.
  unfold GPU_BACKENDS.
  destruct (String.eqb_spec plat "darwin"); [by left|].
  destruct (String.eqb_spec plat "win32"); [right; by left|].
  right; right. done.
Qed.

Lemma backend_names_unique plat : NoDup (name <$> GPU_BACKENDS plat).
Proof.
  destruct (GPU_BACKENDS_cases plat) as [[-> _]|[[-> _]|[-> _]]];
    apply (bool_decide_unpack _); vm_compute; exact I.
Qed.

Lemma software_is_no_backend plat :
  "software"%string ∉ name <$> GPU_BACKENDS plat.
Proof.
  destruct (GPU_BACKENDS_cases plat) as [[-> _]|[[-> _]|[-> _]]];
    apply (bool_decide_unpack _); vm_compute; exact I.
Qed.

Lemma empty_is_no_backend plat : ""%string ∉ name <$> GPU_BACKENDS plat.
Proof.
  destruct (GPU_BACKENDS_cases plat) as [[-> _]|[[-> _]|[-> _]]];
    apply (bool_decide_unpack _); vm_compute; exact I.
Qed.

Lemma find_by_name (bs : list backend) (n : string) :
  match List.find (λ b, String.eqb (name b) n) bs with
  | Some b => b ∈ bs ∧ name b = n
  | None => ∀ b, b ∈ bs → name b ≠ n
  end.
Proof.
  induction bs as [|b bs IH]; cbn.
  - intros b Hb. by apply elem_of_nil in Hb.
  - destruct (String.eqb_spec (name b) n) as [Heq|Hne].
    + split; [by left|done].
    + destruct (List.find _ bs) as [b'|].
      * destruct IH as [Hin Hn]. split; [by right|done].
      * intros b' Hb'. apply elem_of_cons in Hb' as [->|Hb']; [done|].
        by apply IH.
Qed.

Lemma same_name_same_backend plat b b' :
  b ∈ GPU_BACKENDS plat → b' ∈ GPU_BACKENDS plat → name b = name b' → b = b'.
Proof.
  intros Hb Hb' Hn.
  apply list_elem_of_lookup in Hb as [i Hi].
  apply list_elem_of_lookup in Hb' as [i' Hi'].
  pose proof (backend_names_unique plat) as Hnd.
  assert (i = i') as ->.
  { eapply NoDup_lookup; [exact Hnd| |].
    - rewrite list_lookup_fmap, Hi. done.
    - rewrite list_lookup_fmap, Hi'. cbn. by rewrite Hn. }
  congruence.
Qed.

(** X5.  [getOptimalChromiumConfig] with a backend name other than
    ['auto'] never throws, launches no browser and leaves both caches as
    they are.  The name of a backend of the platform gives the launch
    flags of that backend (names are unique within a platform); any other
    name gives the flags of the software fallback. *)
Theorem manual_backend_selection (e : env) (w : world) (backend : string) :
  backend ≠ "auto"%string →
  ∃ fl, getOptimalChromiumConfig e backend w = (Ok fl, w) ∧
    (∀ b, b ∈ GPU_BACKENDS (platform e) → name b = backend →
          fl = launch_flags b) ∧
    ((∀ b, b ∈ GPU_BACKENDS (platform e) → name b ≠ backend) →
     fl = launch_flags SOFTWARE_FALLBACK).
Proof.
  intros Hne. unfold getOptimalChromiumConfig.
  destruct (String.eqb_spec backend "auto"); [done|].
  pose proof (find_by_name (GPU_BACKENDS (platform e)) backend) as Hfind.
  destruct (List.find _ _) as [sel|].
  - destruct Hfind as [Hin Hn]. exists (launch_flags sel). split; [done|].
    split.
    + intros b Hb Hnb.
      by rewrite (same_name_same_backend (platform e) b sel) by congruence.
    + intros Hno. by destruct (Hno sel Hin).
  - exists (launch_flags SOFTWARE_FALLBACK). split; [done|]. split; [|done].
    intros b Hb Hnb. by destruct (Hfind b Hb).
Qed.

(** On Linux, [egl] gives its own flags and [metal], a backend of
    another platform, the flags of the software fallback. *)
Lemma manual_backend_selection_witness :
  getOptimalChromiumConfig (no_gpu 1000) "egl" fresh
    = (Ok (true, Some "chromium"%string,
           ["--no-sandbox"; "--disable-background-timer-throttling";
            "--disable-backgrounding-occluded-windows";
            "--disable-renderer-backgrounding"; "--use-gl=egl";
            "--ignore-gpu-blocklist"]%string), fresh) ∧
  getOptimalChromiumConfig (no_gpu 1000) "metal" fresh
    = (Ok (true, None, ["--no-sandbox"%string]), fresh).
Proof.
  split.
  - destruct (manual_backend_selection (no_gpu 1000) fresh "egl"%string)
      as (fl & -> & Hfl & _); [discriminate|].
    by rewrite (Hfl (Backend "egl" "EGL (Intel/Mesa)" (Some "chromium"%string)
                  true _) ltac:(right; left) eq_refl).
  - destruct (manual_backend_selection (no_gpu 1000) fresh "metal"%string)
      as (fl & -> & _ & Hfl); [discriminate|].
    rewrite Hfl; [done|].
    intros b Hb. repeat (apply elem_of_cons in Hb as [->|Hb]; [discriminate|]).
    by apply elem_of_nil in Hb.
Defined.

(** X6.  [getAvailableBackends] lists ['auto'], then the backends of the
    platform in priority order, then ['software'].  The backend names of a
    platform are pairwise distinct and none is ['software'].  The listed
    names are pairwise distinct except on darwin and win32, whose tables
    have a backend called ['auto'] themselves: there ['auto'] is listed
    twice, and since [getOptimalChromiumConfig('auto')] always means
    detection, that backend cannot be selected by name. *)
Theorem available_backend_names (plat : string) :
  fst <$> getAvailableBackends plat
    = ["auto"%string] ++ (name <$> GPU_BACKENDS plat) ++ ["software"%string] ∧
  NoDup (name <$> GPU_BACKENDS plat) ∧
  ("software"%string ∉ name <$> GPU_BACKENDS plat) ∧
  (NoDup (fst <$> getAvailableBackends plat)
   ↔ plat ≠ "darwin"%string ∧ plat ≠ "win32"%string) ∧
  (∀ e w, getOptimalChromiumConfig e "auto" w
          = bind (detectBestGPUConfig e (Options false None))
              (λ c, ret (c_headless c, c_channel c, c_args c)) w).
Proof.
  split.
  { unfold getAvailableBackends. rewrite !fmap_app, <- list_fmap_compose. done. }
  split; [apply backend_names_unique|].
  split; [apply software_is_no_backend|].
  split; [|done].
  - unfold getAvailableBackends.
    destruct (GPU_BACKENDS_cases plat) as [[-> ->]|[[-> ->]|[-> [H1 H2]]]].
    + split; [|by intros [[] _]]. intros H. exfalso. revert H.
      apply (bool_decide_eq_false_1 _). vm_compute. reflexivity.
    + split; [|by intros [_ []]]. intros H. exfalso. revert H.
      apply (bool_decide_eq_false_1 _). vm_compute. reflexivity.
    + split; [done|]. intros _. apply (bool_decide_unpack _). vm_compute. exact I.
Qed.

(** X7.  [checkGPUAcceleration] never throws.  When it had to probe
    (neither cache could answer), it reports [accelerated] exactly when
    some backend of the platform is hardware-accelerated; it reports the
    backend ['software'] exactly when [accelerated] is false, and then the
    status is ['SwiftShader']. *)
Theorem checkGPUAcceleration_report (e : env) (w : world) :
  ∃ a w', checkGPUAcceleration e w = (Ok a, w') ∧
    (cache_miss e (Options false None) w →
       (a_accelerated a = true ↔
        ∃ b, b ∈ GPU_BACKENDS (platform e) ∧ is_accelerated e b) ∧
       (a_accelerated a = false ↔ a_backend a = "software"%string) ∧
       (a_accelerated a = false →
        a_status a = Some "SwiftShader"%string ∧
        a_label a = "Software (SwiftShader)"%string)).
Proof.
  unfold checkGPUAcceleration, bind.
  destruct (detectBestGPUConfig_total e (Options false None) w)
    as (c & w' & Heq & _). rewrite Heq. eexists _, _. split; [done|].
  intros Hmiss. cbn.
  rewrite detectBestGPUConfig_miss, detect_eq in Heq by (done || by left).
  unfold first_accelerated in Heq.
  destruct (list_find _ _) as [[i b]|] eqn:Hfind.
  - injection Heq as <- _. cbn.
    apply list_find_Some in Hfind as (Hi & Hb & _).
    apply list_elem_of_lookup_2 in Hi. split; [|split].
    + split; [|done]. intros _. by exists b.
    + split; [done|]. intros Hn. exfalso.
      apply (software_is_no_backend (platform e)).
      apply list_elem_of_fmap. by exists b.
    + done.
  - injection Heq as <- _. cbn.
    apply list_find_None in Hfind. split; [|split].
    + split; [done|]. intros (b & Hb & Hacc).
      by eapply Forall_forall in Hfind.
    + done.
    + done.
Qed.

(** *** The command line *)

Lemma cli_detect_named e deletable value w :
  value ≠ ""%string → value ≠ "auto"%string →
  cli_detect e deletable value w =
    detectBestGPUConfig e (Options false (Some value))
      (World None (if deletable then Missing else cacheFile w) (probed w)).
Proof.
  intros H1 H2. unfold cli_detect, cli_gpuBackend.
  destruct (String.eqb_spec value ""); [done|].
  destruct (String.eqb_spec value "auto"); [done|]. cbn.
  unfold bind. by rewrite clearGPUCache_eq.
Qed.





(** X10.  Round trip of the cache file.  [saveCachedConfig] never throws
    and does not touch the in-memory profile.  When the file can be
    written, a later [loadCachedConfig] returns the saved profile as long
    as its clock reads less than 24 h after the time of saving (a clock
    that reads earlier than the time of saving included), and [null] from
    then on; when it cannot be written, nothing changes.  A missing or
    unparsable file reads as [null]. *)
Theorem cache_file_round_trip (e1 e2 : env) (c : config) (w : world) :
  ∃ w1, saveCachedConfig e1 c w = (Ok tt, w1) ∧
    cachedConfig w1 = cachedConfig w ∧ probed w1 = probed w ∧
    (writable e1 = true →
     loadCachedConfig e2 w1 =
       (Ok (if decide (now e2 - stamp e1 < CACHE_TTL)%Z then Some c else None),
        w1)) ∧
    (writable e1 = false → w1 = w) ∧
    (∀ w2, cacheFile w2 = Missing ∨ cacheFile w2 = Corrupt →
           loadCachedConfig e2 w2 = (Ok None, w2)).
Proof.
  rewrite saveCachedConfig_eq. eexists. split; [done|].
  split; [done|]. split; [done|]. split; [|split].
  - intros ->. rewrite loadCachedConfig_eq. done.
  - intros ->. by destruct w.
  - intros w2 [H|H]; rewrite loadCachedConfig_eq, H; done.
Qed.

(** X11.  The two renderer tests compared on every outcome of the probe
    page.  Without a WebGL context, and without the debug extension, the
    detector ([testGPUBackend]) reports no hardware acceleration while the
    diagnostics script ([testGPUConfig]) reports hardware acceleration.
    With a renderer string the diagnostics script reports hardware
    acceleration exactly when the detector does and the string does not
    contain both "mesa" and "llvm". *)
Theorem classifiers_compared :
  accelerated (inspect NoContext) = false ∧
  testGPUConfig_hardwareAccelerated NoContext = true ∧
  accelerated (inspect NoDebugInfo) = false ∧
  testGPUConfig_hardwareAccelerated NoDebugInfo = true ∧
  (∀ r v,
     testGPUConfig_hardwareAccelerated (DebugInfo r v) =
       accelerated (inspect (DebugInfo r v)) &&
       negb (includes (toLowerCase (default ""%string r)) "mesa" &&
             includes (toLowerCase (default ""%string r)) "llvm")).
Proof.
  split; [reflexivity|]. split; [vm_compute; reflexivity|].
  split; [reflexivity|]. split; [vm_compute; reflexivity|].
  intros r v.
  unfold testGPUConfig_hardwareAccelerated, diagnostics_hardwareAccelerated,
    diagnostics_isSoftware, diagnostics_renderer, accelerated, inspect,
    isSoftware. cbn [isHardwareAccelerated].
  destruct (includes _ "swiftshader"), (includes _ "llvmpipe"),
    (includes _ "software"), (includes _ "microsoft basic render"),
    (includes _ "mesa"), (includes _ "llvm"); reflexivity.
Qed.

End GpuApiProps.

(** ** Teardown *)

Module RenderProps.
Import Js Render.

Ltac in_list := apply list_elem_of_In; cbn; auto 10.
Ltac not_in_list H := apply list_elem_of_In in H; cbn in H; intuition discriminate.

Lemma await_eq e c s :
  await e c s = (match rejects e c with Some msg => Throw msg | None => Ok tt end, s).
Proof. unfold await. by destruct (rejects e c). Qed.

Lemma worker_pages_store e n : ∀ i s, ∃ r, worker_pages e i n s = (r, s).
Proof.
  induction n as [|n IH]; intros i s; cbn [worker_pages].
  - by eexists.
  - unfold bind. rewrite await_eq. destruct (rejects e _); [by eexists|].
    apply IH.
Qed.

(** The body of the [try] block acquires and releases nothing. *)
Lemma render_body_store e n out s : ∃ r, render_body e n out s = (r, s).
Proof.
  unfold render_body, bind.
  rewrite await_eq. destruct (rejects e NewContext); [by eexists|].
  cbv beta iota.
  rewrite await_eq. destruct (rejects e EncoderPageSetup); [by eexists|].
  cbv beta iota.
  destruct (worker_pages_store e n 0 s) as [r ->].
  destruct r as [[]|msg]; [|by eexists].
  rewrite await_eq. destruct (rejects e InitEncoder); [by eexists|].
  cbv beta iota.
  rewrite await_eq. destruct (rejects e Orchestrate); [by eexists|].
  cbv beta iota.
  rewrite await_eq. destruct (rejects e Finalize); [by eexists|].
  cbv beta iota.
  rewrite await_eq. destruct (rejects e WriteFile); by eexists.
Qed.

Lemma getOptimalChromiumConfig_ok ge w :
  ∃ x w', Gpu.getOptimalChromiumConfig ge w = (Ok x, w').
Proof.
  unfold Gpu.getOptimalChromiumConfig, bind.
  destruct (GpuProps.detectBestGPUConfig_total ge (Gpu.Options false None) w)
    as (c & w' & -> & _). by eexists _, _.
Qed.

(** Once the browser is up, whatever happens inside the [try] block, the
    [finally] block closes the browser and, unless that call itself
    rejects, stops the server before the outcome reaches the caller. *)
Lemma teardown_after_launch e d n out w :
  needs_detection d = false →
  rejects e CreateVideoServer = None →
  rejects e ChromiumLaunch = None →
  rejects e BrowserClose = None →
  rejects e CleanupServer = None →
  ∃ r w', renderToMp4Parallel e d n out (Store w []) =
            (r, Store w' [Acquired Server; Acquired Browser;
                          Released Browser; Released Server]) ∧
          torn_down [Acquired Server; Acquired Browser;
                     Released Browser; Released Server].
Proof.
  intros Hd Hs Hl Hc Hcs.
  unfold renderToMp4Parallel, resolve_duration, bind, record, modify, in_gpu.
  rewrite Hd. unfold ret at 1. cbv beta iota.
  rewrite await_eq, Hs. cbn [gpu log app].
  destruct (getOptimalChromiumConfig_ok (gpu_env e) w) as (x & w' & ->).
  rewrite await_eq, Hl. cbn [gpu log app].
  unfold try_finally.
  destruct (render_body_store e n out
              (Store w' [Acquired Server; Acquired Browser])) as [r ->].
  unfold teardown, bind, record, modify.
  rewrite await_eq, Hc. cbn [gpu log app].
  rewrite await_eq, Hcs.
  exists r, w'. split; [done|].
  intros [] _; in_list.
Qed.

(** C9 does not hold when the failure is the browser launch, or when
    [browser.close()] itself rejects.  With the server up and
    [chromium.launch] rejecting, the error reaches the caller and the
    server has not been stopped; with a capture failing and then
    [browser.close()] rejecting, the close error reaches the caller and
    the server has not been stopped.  A failure inside the [try] block,
    here a worker page that never gets ready, is different: browser and
    server are released before the error surfaces, as they are when the
    job succeeds. *)
Theorem launch_failure_leaks_server :
  (λ r, (r.1, log r.2))
    (renderToMp4Parallel launch_fails (Some 2%Q) 4 "output.mp4" started)
    = (Throw "browserType.launch: Executable does not exist"%string,
       [Acquired Server]) ∧
  ¬ torn_down [Acquired Server] ∧
  (λ r, (r.1, log r.2))
    (renderToMp4Parallel close_fails (Some 2%Q) 4 "output.mp4" started)
    = (Throw "browser.close: Connection closed"%string,
       [Acquired Server; Acquired Browser]) ∧
  ¬ torn_down [Acquired Server; Acquired Browser] ∧
  (λ r, (r.1, log r.2))
    (renderToMp4Parallel page_times_out (Some 2%Q) 4 "output.mp4" started)
    = (Throw "page.waitForFunction: Timeout 30000ms exceeded"%string,
       [Acquired Server; Acquired Browser; Released Browser; Released Server]) ∧
  (λ r, (r.1, log r.2))
    (renderToMp4Parallel all_well (Some 2%Q) 4 "output.mp4" started)
    = (Ok "output.mp4"%string,
       [Acquired Server; Acquired Browser; Released Browser; Released Server]).
Proof.
  split; [vm_compute; reflexivity|]. split.
  { intros H. specialize (H Server ltac:(in_list)). not_in_list H. }
  split; [vm_compute; reflexivity|]. split.
  { intros H. specialize (H Server ltac:(in_list)). not_in_list H. }
  split; vm_compute; reflexivity.
Qed.

End RenderProps.
